(** * cachet_url_monitor.expectation: expectations, damping and incident lifecycle

    A shallow embedding of [cachet_url_monitor/expectation.py].  Python
    objects become records, attribute updates become record updates, and the
    calls made on the Cachet client, the webhooks and the logger are recorded
    in a trace of events.  *)

From Stdlib Require Import ZArith QArith.QArith_base Ascii String List Bool Lia.
From stdpp Require Import base option list strings pretty gmap.

Local Open Scope string_scope.
Local Open Scope Z_scope.

#[local] Set Warnings "-register-all".

(** ** Status model *)

(** Modelled from the spec: [cachet_url_monitor/status.py] is not among the
    sources; the members of [ComponentStatus] are the closed enumeration of
    the data model (OPERATIONAL, PERFORMANCE_ISSUES, PARTIAL_OUTAGE,
    MAJOR_OUTAGE). *)
Inductive ComponentStatus : Type :=
  | OPERATIONAL
  | PERFORMANCE_ISSUES
  | PARTIAL_OUTAGE
  | MAJOR_OUTAGE.

#[global] Instance ComponentStatus_eq_dec : EqDecision ComponentStatus.
Proof. solve_decision. Defined.

(** ** Python values

    The values a decoded YAML or JSON document is made of.  A finite float is
    represented by the rational it denotes, so that comparisons are exact as
    they are in Python. *)

Inductive pyfloat : Type :=
  | FNaN
  | FInf (negative : bool)
  | FFinite (q : Q).

Inductive PyVal : Type :=
  | VNone
  | VBool (b : bool)
  | VInt (n : Z)
  | VFloat (f : pyfloat)
  | VStr (s : string)
  | VList (items : list PyVal)
  | VDict (entries : list (string * PyVal)).

Definition float_eq (x y : pyfloat) : bool :=
  match x, y with
  | FFinite p, FFinite q => Qeq_bool p q
  | FInf a, FInf b => Bool.eqb a b
  | _, _ => false
  end.

Definition float_le (x y : pyfloat) : bool :=
  match x, y with
  | FFinite p, FFinite q => Qle_bool p q
  | FInf a, FInf b => implb b a
  | FInf a, FFinite _ => a
  | FFinite _, FInf b => negb b
  | _, _ => false
  end.

(** The number a value stands for in a comparison ([bool] is a subclass of
    [int]). *)
Definition py_num (v : PyVal) : option pyfloat :=
  match v with
  | VBool b => Some (FFinite (inject_Z (Z.b2z b)))
  | VInt n => Some (FFinite (inject_Z n))
  | VFloat f => Some f
  | _ => None
  end.

(** [d.get(key)] on the entries of a dict. *)
Fixpoint entries_get {A} (key : string) (d : list (string * A)) : option A :=
  match d with
  | [] => None
  | (k, v) :: d' => if String.eqb k key then Some v else entries_get key d'
  end.

(** Python's [==] on decoded values. *)
Fixpoint py_eq (a b : PyVal) : bool :=
  match a with
  | VNone => match b with VNone => true | _ => false end
  | VBool x =>
      match py_num b with
      | Some y => float_eq (FFinite (inject_Z (Z.b2z x))) y
      | None => false
      end
  | VInt x =>
      match py_num b with
      | Some y => float_eq (FFinite (inject_Z x)) y
      | None => false
      end
  | VFloat x =>
      match py_num b with
      | Some y => float_eq x y
      | None => false
      end
  | VStr s => match b with VStr t => String.eqb s t | _ => false end
  | VList xs =>
      match b with
      | VList ys =>
          (fix items_eq (xs : list PyVal) (ys : list PyVal) : bool :=
             match xs, ys with
             | [], [] => true
             | x :: xs', y :: ys' => py_eq x y && items_eq xs' ys'
             | _, _ => false
             end) xs ys
      | _ => false
      end
  | VDict d =>
      match b with
      | VDict e =>
          Nat.eqb (length d) (length e) &&
          (fix entries_eq (d : list (string * PyVal)) : bool :=
             match d with
             | [] => true
             | (k, v) :: d' =>
                 match entries_get k e with
                 | Some w => py_eq v w
                 | None => false
                 end && entries_eq d'
             end) d
      | _ => false
      end
  end.

(** ** Strings *)

(** [s.split(sep)] for a separator of one character. *)
Fixpoint str_split (sep : ascii) (s : string) : list string :=
  match s with
  | EmptyString => [""]
  | String c s' =>
      if Ascii.eqb c sep then "" :: str_split sep s'
      else match str_split sep s' with
           | [] => [String c ""]
           | w :: ws => String c w :: ws
           end
  end.

(** Whether a character occurs in a string. *)
Fixpoint str_contains (c : ascii) (s : string) : bool :=
  match s with
  | EmptyString => false
  | String c' s' => Ascii.eqb c' c || str_contains c s'
  end.

Definition is_digit (c : ascii) : bool :=
  let n := Z.of_nat (nat_of_ascii c) in
  (48 <=? n) && (n <=? 57).

Definition digit_value (c : ascii) : Z := Z.of_nat (nat_of_ascii c) - 48.

Definition is_letter (c : ascii) : bool :=
  let n := Z.of_nat (nat_of_ascii c) in
  ((65 <=? n) && (n <=? 90)) || ((97 <=? n) && (n <=? 122)).

Fixpoint all_digits (s : string) : bool :=
  match s with
  | EmptyString => true
  | String c s' => is_digit c && all_digits s'
  end.

Fixpoint has_letter (s : string) : bool :=
  match s with
  | EmptyString => false
  | String c s' => is_letter c || has_letter s'
  end.

(** The number a run of decimal digits writes. *)
Fixpoint decimal_value (acc : Z) (s : string) : Z :=
  match s with
  | EmptyString => acc
  | String c s' => decimal_value (10 * acc + digit_value c) s'
  end.

(** ** The built-in [int]

    [int(s)] for a [str] argument is Python's, not the module's, and what it
    accepts beyond plain ASCII literals (digits of other scripts, other
    white space, how many digits) depends on the interpreter.  It is a
    parameter of the development; a [str] is represented by its UTF-8 bytes,
    and [None] stands for the [ValueError].  Three facts about it are used:
    a non-empty run of at most 640 ASCII digits is read as the decimal number
    it writes (640 is the least limit on the number of digits an interpreter
    can be given); a text with an ASCII letter in it is rejected; and a
    negative result needs a minus sign in the text. *)
Record IntBuiltin : Type := {
  int_str : string -> option Z;
  int_str_digits :
    forall s : string,
      s <> EmptyString -> all_digits s = true ->
      (String.length s <= 640)%nat ->
      int_str s = Some (decimal_value 0 s);
  int_str_letter :
    forall s : string, has_letter s = true -> int_str s = None;
  int_str_negative :
    forall (s : string) (n : Z),
      int_str s = Some n -> n < 0 -> str_contains "-" s = true
}.

(** *** A reader of ASCII literals

    The instance of [int] the examples run on: white space (tab, line feed,
    vertical tab, form feed, carriage return, space) around an optional sign
    and decimal digits with single underscores between them. *)

Definition is_space (c : ascii) : bool :=
  let n := Z.of_nat (nat_of_ascii c) in
  ((9 <=? n) && (n <=? 13)) || (n =? 32).

Fixpoint lstrip (s : string) : string :=
  match s with
  | EmptyString => ""
  | String c s' => if is_space c then lstrip s' else s
  end.

Fixpoint rstrip (s : string) : string :=
  match s with
  | EmptyString => ""
  | String c s' =>
      match rstrip s' with
      | EmptyString => if is_space c then "" else String c ""
      | r => String c r
      end
  end.

Fixpoint digits_value (acc : Z) (after_digit : bool) (s : string) : option Z :=
  match s with
  | EmptyString => if after_digit then Some acc else None
  | String c s' =>
      if is_digit c then digits_value (10 * acc + digit_value c) true s'
      else if Ascii.eqb c "_" && after_digit then digits_value acc false s'
      else None
  end.

Definition ascii_int (s : string) : option Z :=
  match lstrip (rstrip s) with
  | String "-" d => Z.opp <$> digits_value 0 false d
  | String "+" d => digits_value 0 false d
  | d => digits_value 0 false d
  end.

(** ** Exceptions *)

Inductive Exception : Type :=
  | ConfigurationValidationError (msg : string)
  | KeyError (key : string)
  | ValueError (literal : string)
  | AttributeError (attribute : string)
  | IndexError
  | JSONDecodeError (doc : string)
  | ReError (pattern : string).

Inductive Result (A : Type) : Type :=
  | Return (a : A)
  | Raise (e : Exception).

Arguments Return {A} a.
Arguments Raise {A} e.

Definition bind_result {A B} (r : Result A) (k : A -> Result B) : Result B :=
  match r with
  | Return a => k a
  | Raise e => Raise e
  end.

Notation "x <-! r ; k" := (bind_result r (fun x => k))
  (at level 100, r at next level, right associativity).

(** ** Probe responses, external collaborators and the trace of effects *)

(** The probe response handed to the evaluators ([requests.Response]): the
    attributes the expectations read. *)
Record Response : Type := {
  status_code : Z;
  text : string;
  elapsed_total_seconds : pyfloat
}.

(** Modelled from the spec: [client.py] and [webhook.py] are not among the
    sources; the result of a call on them is the shape of the external
    interfaces, Result{ok, status_code, body with the new incident id on
    create}.  [json_data_id] is [json()["data"]["id"]]. *)
Record Reply : Type := {
  ok : bool;
  reply_status_code : Z;
  json_data_id : Z
}.

(** Everything the expectation does to the outside world, in order. *)
Inductive Event : Type :=
  | GetComponentNameAndStatus (component : Z)
  | GetComponentStatus (component : Z)
  | PushStatus (component : Z) (status : ComponentStatus)
  | PushIncident (status : ComponentStatus) (public_incidents : bool)
      (component : Z) (title : string)
      (previous_incident_id : option Z) (incident_message : option string)
  | WebhookPushIncident (target : string) (title : string) (body : string)
  | LogInfo (line : string)
  | LogWarning (line : string).

#[global] Instance Event_eq_dec : EqDecision Event.
Proof. solve_decision. Defined.

(** Modelled from the spec: the reporting client of the external
    interfaces.  The backend is stateful, so each answer may depend on the
    events that happened before the call. *)
Record CachetClient : Type := {
  get_component_name_and_status : list Event -> Z -> string * ComponentStatus;
  get_component_status : list Event -> Z -> ComponentStatus;
  client_push_status : list Event -> Z -> ComponentStatus -> Reply;
  client_push_incident :
    list Event -> ComponentStatus -> bool -> Z -> string ->
    option Z -> option string -> Reply
}.

(** Modelled from the spec: a webhook target, with its [url] and its
    [push_incident(title, message)]. *)
Record Webhook : Type := {
  url : string;
  webhook_push_incident : list Event -> string -> string -> Reply
}.

Inductive Logger : Type := logging_logger.

(** Effectful code threads the trace. *)
Definition IO (A : Type) : Type := list Event -> A * list Event.

Definition ret {A} (a : A) : IO A := fun h => (a, h).

Definition bind {A B} (m : IO A) (k : A -> IO B) : IO B :=
  fun h => let '(a, h') := m h in k a h'.

Notation "x <- m ;; k" := (bind m (fun x => k))
  (at level 100, m at next level, right associativity).
Notation "m ;;; k" := (bind m (fun _ => k))
  (at level 100, right associativity).

(** A call on a collaborator: its answer is computed from the history, and
    the call is recorded. *)
Definition call {A} (answer : list Event -> A) (ev : Event) : IO A :=
  fun h => (answer h, (h ++ [ev])%list).

Definition logger_info (logger : option Logger) (line : string) : IO unit :=
  fun h => match logger with
           | Some _ => (tt, (h ++ [LogInfo line])%list)
           | None => (tt, h)
           end.

Definition logger_warning (logger : option Logger) (line : string) : IO unit :=
  fun h => match logger with
           | Some _ => (tt, (h ++ [LogWarning line])%list)
           | None => (tt, h)
           end.

Definition dquote : string := String (ascii_of_nat 34) EmptyString.

(** ** Configuration and expectations *)

(** One configuration record per expectation, as the validated configuration
    surface gives it; [None] is an absent key. *)
Record Configuration : Type := {
  cfg_type : option string;
  cfg_incident : option string;
  cfg_component_id : option Z;
  cfg_allowed_fails : option Z;
  cfg_is_independent : option bool;
  cfg_status_range : option PyVal;
  cfg_threshold : option pyfloat;
  cfg_regex : option string;
  cfg_field : option string;
  cfg_value : option PyVal
}.

(** The subclass of an expectation with the attributes its constructor
    sets. *)
Inductive Kind : Type :=
  | HttpStatus (status_range : Z * Z)
  | Latency (threshold : pyfloat)
  | Regex (regex_string : string)
  | JsonFieldValueCheck (field : string) (value : PyVal)
      (all_fields : list string).

(** The attributes of an [Expectation] object.  [component_id = None] is an
    unbound expectation; the attributes from [componemt_name] to
    [allowed_fails] are assigned only for a bound one and are read only
    behind the same guard.  [incident_id = None] is the absence of the
    attribute ([hasattr] is false). *)
Record Expectation : Type := {
  kind : Kind;
  incident_status : ComponentStatus;
  component_id : option Z;
  independent : bool;
  componemt_name : string;
  component_status : ComponentStatus;
  previous_component_status : ComponentStatus;
  current_fails : Z;
  trigger_update : bool;
  message : string;
  allowed_fails : option Z;
  incident_id : option Z
}.

Definition set_component_status (v : ComponentStatus) (e : Expectation) :=
  {| kind := kind e; incident_status := incident_status e;
     component_id := component_id e; independent := independent e;
     componemt_name := componemt_name e; component_status := v;
     previous_component_status := previous_component_status e;
     current_fails := current_fails e; trigger_update := trigger_update e;
     message := message e; allowed_fails := allowed_fails e;
     incident_id := incident_id e |}.

Definition set_previous_component_status (v : ComponentStatus)
    (e : Expectation) :=
  {| kind := kind e; incident_status := incident_status e;
     component_id := component_id e; independent := independent e;
     componemt_name := componemt_name e;
     component_status := component_status e;
     previous_component_status := v;
     current_fails := current_fails e; trigger_update := trigger_update e;
     message := message e; allowed_fails := allowed_fails e;
     incident_id := incident_id e |}.

Definition set_current_fails (v : Z) (e : Expectation) :=
  {| kind := kind e; incident_status := incident_status e;
     component_id := component_id e; independent := independent e;
     componemt_name := componemt_name e;
     component_status := component_status e;
     previous_component_status := previous_component_status e;
     current_fails := v; trigger_update := trigger_update e;
     message := message e; allowed_fails := allowed_fails e;
     incident_id := incident_id e |}.

Definition set_trigger_update (v : bool) (e : Expectation) :=
  {| kind := kind e; incident_status := incident_status e;
     component_id := component_id e; independent := independent e;
     componemt_name := componemt_name e;
     component_status := component_status e;
     previous_component_status := previous_component_status e;
     current_fails := current_fails e; trigger_update := v;
     message := message e; allowed_fails := allowed_fails e;
     incident_id := incident_id e |}.

Definition set_message (v : string) (e : Expectation) :=
  {| kind := kind e; incident_status := incident_status e;
     component_id := component_id e; independent := independent e;
     componemt_name := componemt_name e;
     component_status := component_status e;
     previous_component_status := previous_component_status e;
     current_fails := current_fails e; trigger_update := trigger_update e;
     message := v; allowed_fails := allowed_fails e;
     incident_id := incident_id e |}.

Definition set_incident_id (v : option Z) (e : Expectation) :=
  {| kind := kind e; incident_status := incident_status e;
     component_id := component_id e; independent := independent e;
     componemt_name := componemt_name e;
     component_status := component_status e;
     previous_component_status := previous_component_status e;
     current_fails := current_fails e; trigger_update := trigger_update e;
     message := message e; allowed_fails := allowed_fails e;
     incident_id := v |}.

(** The classes [Expectation.create] can instantiate. *)
Inductive ExpectationClass : Type :=
  | HttpStatus_class
  | Latency_class
  | Regex_class
  | JsonFieldValueCheck_class.

(** The [expectations] dictionary of [Expectation.create]. *)
Definition expectations : gmap string ExpectationClass :=
  <["HTTP_STATUS" := HttpStatus_class]>
    (<["LATENCY" := Latency_class]>
       (<["REGEX" := Regex_class]>
          (<["JSON_CHECK" := JsonFieldValueCheck_class]> ∅))).

Definition get_default_incident (k : Kind) : ComponentStatus :=
  match k with
  | HttpStatus _ => PARTIAL_OUTAGE
  | Latency _ => PERFORMANCE_ISSUES
  | Regex _ => PARTIAL_OUTAGE
  | JsonFieldValueCheck _ _ _ => PARTIAL_OUTAGE
  end.

(** [for x in xs: body(x)] *)
Fixpoint for_each {A} (xs : list A) (body : A -> IO unit) : IO unit :=
  match xs with
  | [] => ret tt
  | x :: xs' => body x ;;; for_each xs' body
  end.

(** [hasattr(self, "incident_id")] *)
Definition hasattr_incident_id (self : Expectation) : bool :=
  match incident_id self with
  | Some _ => true
  | None => false
  end.

(** [tmpDict.get(key, default)]: only a dict has the method. *)
Definition py_get (tmpDict : PyVal) (key : string) (default_value : PyVal)
    : Result PyVal :=
  match tmpDict with
  | VDict d =>
      match entries_get key d with
      | Some v => Return v
      | None => Return default_value
      end
  | _ => Raise (AttributeError "get")
  end.

(** The loop of [JsonFieldValueCheck.get_status] over the leading
    segments. *)
Fixpoint walk_fields (segments : list string) (tmpDict : PyVal)
    : Result PyVal :=
  match segments with
  | [] => Return tmpDict
  | segment :: rest =>
      next <-! py_get tmpDict segment (VDict []);
      walk_fields rest next
  end.

Section Expectations.

#[local] Set Default Proof Using "Type".

(** What the module takes from outside the sources: the [INCIDENT_MAP] table
    of [status.py], the text a status, a value and a float are formatted to,
    [json.loads] ([None] when it raises), [re.compile] with the [match] of
    the compiled pattern ([re_compile] is false when it raises), and the
    built-in [int]. *)
Variable INCIDENT_MAP : gmap string ComponentStatus.
Variable status_str : ComponentStatus -> string.
Variable py_str : PyVal -> string.
Variable format_4f : pyfloat -> string.
Variable json_loads : string -> option PyVal.
Variable re_compile : string -> bool.
Variable re_match : string -> string -> bool.
Variable python_int : IntBuiltin.

(** [int(s)], raising. *)
Definition int_of_str (s : string) : Result Z :=
  match int_str python_int s with
  | Some n => Return n
  | None => Raise (ValueError s)
  end.

(** *** HttpStatus.parse_range *)

Definition HttpStatus_parse_range (range_string : PyVal) : Result (Z * Z) :=
  match range_string with
  | VInt n => Return (n, n + 1)
  | VBool b => Return (Z.b2z b, Z.b2z b + 1)
  | VStr s =>
      match str_split "-" s with
      | [single] =>
          lo <-! int_of_str single;
          hi <-! int_of_str single;
          Return (lo, hi + 1)
      | first :: second :: _ =>
          lo <-! int_of_str first;
          hi <-! int_of_str second;
          Return (lo, hi)
      | [] => Raise (ValueError s)
      end
  | _ => Raise (AttributeError "split")
  end.

Definition parse_incident_status (k : Kind) (configuration : Configuration)
    : ComponentStatus :=
  match cfg_incident configuration with
  | Some label => default (get_default_incident k) (INCIDENT_MAP !! label)
  | None => get_default_incident k
  end.

(** [Expectation.__init__], reached from a subclass constructor that has set
    the attributes of [k]. *)
Definition Expectation_init (k : Kind) (configuration : Configuration)
    (client : CachetClient) : IO Expectation :=
  let incident_status := parse_incident_status k configuration in
  match cfg_component_id configuration with
  | Some cid =>
      name_status <- call (fun h => get_component_name_and_status client h cid)
                       (GetComponentNameAndStatus cid) ;;
      ret {| kind := k; incident_status := incident_status;
             component_id := Some cid;
             independent := default false (cfg_is_independent configuration);
             componemt_name := fst name_status;
             component_status := snd name_status;
             previous_component_status := snd name_status;
             current_fails := 0; trigger_update := true; message := "";
             allowed_fails := cfg_allowed_fails configuration;
             incident_id := None |}
  | None =>
      ret {| kind := k; incident_status := incident_status;
             component_id := None; independent := false;
             componemt_name := ""; component_status := OPERATIONAL;
             previous_component_status := OPERATIONAL;
             current_fails := 0; trigger_update := true; message := "";
             allowed_fails := None; incident_id := None |}
  end.

(** *** The evaluators *)

Definition HttpStatus_get_status (status_range : Z * Z)
    (self_incident_status : ComponentStatus) (response : Response)
    : ComponentStatus :=
  if (fst status_range <=? status_code response)
     && (status_code response <? snd status_range)
  then OPERATIONAL
  else self_incident_status.

Definition Latency_get_status (threshold : pyfloat)
    (self_incident_status : ComponentStatus) (response : Response)
    : ComponentStatus :=
  if float_le (elapsed_total_seconds response) threshold
  then OPERATIONAL
  else self_incident_status.

Definition Regex_get_status (regex_string : string)
    (self_incident_status : ComponentStatus) (response : Response)
    : ComponentStatus :=
  if re_match regex_string (text response)
  then OPERATIONAL
  else self_incident_status.

(** The body of the [try] of [JsonFieldValueCheck.get_status] up to the
    comparison: the value found at the dotted path. *)
Definition JsonFieldValueCheck_lookup (all_fields : list string)
    (response : Response) : Result PyVal :=
  respJson <-! match json_loads (text response) with
               | Some v => Return v
               | None => Raise (JSONDecodeError (text response))
               end;
  tmpDict <-! walk_fields (take (length all_fields - 1)%nat all_fields)
                respJson;
  last_field <-! match last all_fields with
                 | Some f => Return f
                 | None => Raise IndexError
                 end;
  py_get tmpDict last_field VNone.

Definition JsonFieldValueCheck_get_status (value : PyVal)
    (all_fields : list string) (self_incident_status : ComponentStatus)
    (response : Response) : ComponentStatus :=
  match JsonFieldValueCheck_lookup all_fields response with
  | Return found =>
      if py_eq found value then OPERATIONAL else self_incident_status
  | Raise _ => self_incident_status
  end.

Definition get_status (self : Expectation) (response : Response)
    : ComponentStatus :=
  match kind self with
  | HttpStatus status_range =>
      HttpStatus_get_status status_range (incident_status self) response
  | Latency threshold =>
      Latency_get_status threshold (incident_status self) response
  | Regex regex_string =>
      Regex_get_status regex_string (incident_status self) response
  | JsonFieldValueCheck _ value all_fields =>
      JsonFieldValueCheck_get_status value all_fields (incident_status self)
        response
  end.

Definition get_message (self : Expectation) (response : Response) : string :=
  match kind self with
  | HttpStatus _ =>
      "Unexpected HTTP status (" +:+ pretty (status_code response) +:+ ")"
  | Latency _ =>
      "Latency above threshold: "
        +:+ format_4f (elapsed_total_seconds response) +:+ " seconds"
  | Regex _ => "Regex did not match anything in the body"
  | JsonFieldValueCheck field value _ =>
      "No matching of field " +:+ field +:+ " to value " +:+ py_str value
        +:+ " in the body"
  end.

(** *** Constructors and [Expectation.create] *)

Definition Construct : Type := list Event -> Result (Expectation * list Event).

Definition HttpStatus_init (configuration : Configuration)
    (client : CachetClient) : Construct := fun h =>
  match cfg_status_range configuration with
  | None => Raise (KeyError "status_range")
  | Some range_string =>
      status_range <-! HttpStatus_parse_range range_string;
      Return (Expectation_init (HttpStatus status_range) configuration client h)
  end.

Definition Latency_init (configuration : Configuration)
    (client : CachetClient) : Construct := fun h =>
  match cfg_threshold configuration with
  | None => Raise (KeyError "threshold")
  | Some threshold =>
      Return (Expectation_init (Latency threshold) configuration client h)
  end.

Definition Regex_init (configuration : Configuration)
    (client : CachetClient) : Construct := fun h =>
  match cfg_regex configuration with
  | None => Raise (KeyError "regex")
  | Some regex_string =>
      if re_compile regex_string
      then Return (Expectation_init (Regex regex_string) configuration client h)
      else Raise (ReError regex_string)
  end.

Definition JsonFieldValueCheck_init (configuration : Configuration)
    (client : CachetClient) : Construct := fun h =>
  match cfg_field configuration with
  | None => Raise (KeyError "field")
  | Some field =>
      match cfg_value configuration with
      | None => Raise (KeyError "value")
      | Some value =>
          Return (Expectation_init
                    (JsonFieldValueCheck field value (str_split "." field))
                    configuration client h)
      end
  end.

Definition instantiate (cls : ExpectationClass) (configuration : Configuration)
    (client : CachetClient) : Construct :=
  match cls with
  | HttpStatus_class => HttpStatus_init configuration client
  | Latency_class => Latency_init configuration client
  | Regex_class => Regex_init configuration client
  | JsonFieldValueCheck_class => JsonFieldValueCheck_init configuration client
  end.

Definition create (configuration : Configuration) (client : CachetClient)
    : Construct := fun h =>
  match cfg_type configuration with
  | None => Raise (KeyError "type")
  | Some type =>
      match expectations !! type with
      | None => Raise (ConfigurationValidationError ("Invalid type: " +:+ type))
      | Some cls => instantiate cls configuration client h
      end
  end.

(** *** The lifecycle methods *)

Definition update_component_status (self : Expectation)
    (status : ComponentStatus) (response : Response) : Expectation :=
  match component_id self with
  | Some _ =>
      let self :=
        set_previous_component_status (component_status self) self in
      let self := set_component_status status self in
      set_message (get_message self response) self
  | None => self
  end.

Definition is_independent (self : Expectation) : bool :=
  match component_id self with
  | Some _ => independent self
  | None => false
  end.

Definition get_current_status (self : Expectation) : option ComponentStatus :=
  match component_id self with
  | Some _ => Some (component_status self)
  | None => None
  end.

Definition if_trigger_update (self : Expectation) (allowed_fails_arg : Z)
    (logger : option Logger) : IO Expectation :=
  match component_id self with
  | None => ret self
  | Some _ =>
      let allowed_fails :=
        match allowed_fails self with
        | Some own => own
        | None => allowed_fails_arg
        end in
      if bool_decide (component_status self ≠ OPERATIONAL) then
        let self := set_current_fails (current_fails self + 1) self in
        logger_warning logger
          ("Failure #" +:+ pretty (current_fails self)
             +:+ " with threshold set to " +:+ pretty allowed_fails) ;;;
        if current_fails self <=? allowed_fails then
          ret (set_trigger_update false self)
        else
          ret (set_trigger_update true (set_current_fails 0 self))
      else
        ret (set_trigger_update true (set_current_fails 0 self))
  end.

Definition push_status (self : Expectation) (client : CachetClient)
    (logger : option Logger) : IO Expectation :=
  match component_id self with
  | None => ret self
  | Some cid =>
      if bool_decide (previous_component_status self = component_status self)
      then
        logger_info logger "No changes to component status." ;;;
        ret (set_trigger_update false self)
      else
        let self :=
          set_previous_component_status (component_status self) self in
        if negb (trigger_update self) then ret self
        else
          api_component_status <-
            call (fun h => get_component_status client h cid)
              (GetComponentStatus cid) ;;
          if bool_decide (component_status self = api_component_status)
          then ret self
          else
            component_request <-
              call (fun h =>
                      client_push_status client h cid (component_status self))
                (PushStatus cid (component_status self)) ;;
            (if ok component_request then
               logger_info logger
                 ("Component update: status ["
                    +:+ status_str (component_status self) +:+ "]")
             else
               logger_warning logger
                 ("Component update failed with HTTP status: "
                    +:+ pretty (reply_status_code component_request)
                    +:+ ". API status: "
                    +:+ status_str (component_status self))) ;;;
            ret self
  end.

(** The title [trigger_webhooks] computes. *)
Definition webhook_title (self : Expectation) (endpoint_name : string)
    : string :=
  if bool_decide (component_status self = PERFORMANCE_ISSUES) then
    endpoint_name +:+ " (Component " +:+ componemt_name self +:+ ") degraded"
  else if bool_decide (component_status self = OPERATIONAL) then
    endpoint_name +:+ " (Component " +:+ componemt_name self +:+ ") OK"
  else
    endpoint_name +:+ " (Component " +:+ componemt_name self
      +:+ ") unavailable".

Definition trigger_webhooks (self : Expectation) (endpoint_name : string)
    (incident_title : string) (webhooks : list Webhook)
    (logger : option Logger) : IO unit :=
  match component_id self with
  | None => ret tt
  | Some _ =>
      let title := webhook_title self endpoint_name in
      for_each webhooks (fun webhook =>
        webhook_request <-
          call (fun h =>
                  webhook_push_incident webhook h incident_title
                    (message self))
            (WebhookPushIncident (url webhook) incident_title
               (message self)) ;;
        if ok webhook_request then
          logger_info logger
            ("Webhook " +:+ url webhook +:+ " triggered with " +:+ title)
        else
          logger_warning logger
            ("Webhook " +:+ url webhook +:+ " failed with status ["
               +:+ pretty (reply_status_code webhook_request) +:+ "]"))
  end.

Definition push_incident (self : Expectation) (client : CachetClient)
    (public_incidents : bool) (endpoint_name : string)
    (incident_title : string) (webhooks : list Webhook)
    (logger : option Logger) : IO Expectation :=
  match component_id self with
  | None => ret self
  | Some cid =>
      if negb (trigger_update self) then ret self
      else if hasattr_incident_id self
              && bool_decide (component_status self = OPERATIONAL) then
        incident_request <-
          call (fun h =>
                  client_push_incident client h (component_status self)
                    public_incidents cid incident_title
                    (incident_id self) None)
            (PushIncident (component_status self) public_incidents cid
               incident_title (incident_id self) None) ;;
        self <-
          (if ok incident_request then
             logger_info logger
               ("Incident updated, API healthy again: component status ["
                  +:+ status_str (component_status self) +:+ "], message: "
                  +:+ dquote +:+ message self +:+ dquote) ;;;
             ret (set_incident_id None self)
           else
             logger_warning logger
               ("Incident update failed with status ["
                  +:+ pretty (reply_status_code incident_request)
                  +:+ "], message: " +:+ dquote +:+ message self
                  +:+ dquote) ;;;
             ret self) ;;
        trigger_webhooks self endpoint_name incident_title webhooks None ;;;
        ret self
      else if negb (hasattr_incident_id self)
              && bool_decide (component_status self ≠ OPERATIONAL) then
        incident_request <-
          call (fun h =>
                  client_push_incident client h (component_status self)
                    public_incidents cid incident_title None
                    (Some (message self)))
            (PushIncident (component_status self) public_incidents cid
               incident_title None (Some (message self))) ;;
        self <-
          (if ok incident_request then
             let self :=
               set_incident_id (Some (json_data_id incident_request)) self in
             logger_info logger
               ("Incident uploaded, API unhealthy: component status ["
                  +:+ status_str (component_status self) +:+ "], message: "
                  +:+ dquote +:+ message self +:+ dquote) ;;;
             ret self
           else
             logger_warning logger
               ("Incident upload failed with status ["
                  +:+ pretty (reply_status_code incident_request)
                  +:+ "], message: " +:+ dquote +:+ message self
                  +:+ dquote) ;;;
             ret self) ;;
        trigger_webhooks self endpoint_name incident_title webhooks None ;;;
        ret self
      else ret self
  end.

(** *** Probe cycles *)

(** What the caller passes to the lifecycle methods on every cycle. *)
Record CycleArgs : Type := {
  cy_client : CachetClient;
  cy_allowed_fails : Z;
  cy_public_incidents : bool;
  cy_endpoint_name : string;
  cy_incident_title : string;
  cy_webhooks : list Webhook;
  cy_logger : option Logger
}.

(** Modelled from the spec: the caller of the lifecycle methods is not among
    the sources.  The evaluate step calls the evaluator's classification and
    hands it to [update_component_status]. *)
Definition evaluate (self : Expectation) (response : Response) : Expectation :=
  update_component_status self (get_status self response) response.

(** Modelled from the spec: one probe cycle runs evaluate, then the damping
    decision, then the status push, then the incident push.  The result
    pairs the expectation as [push_status] receives it with the expectation
    at the end of the cycle. *)
Definition cycle (args : CycleArgs) (self : Expectation) (response : Response)
    : IO (Expectation * Expectation) :=
  let evaluated := evaluate self response in
  damped <- if_trigger_update evaluated (cy_allowed_fails args)
              (cy_logger args) ;;
  pushed <- push_status damped (cy_client args) (cy_logger args) ;;
  final <- push_incident pushed (cy_client args) (cy_public_incidents args)
             (cy_endpoint_name args) (cy_incident_title args)
             (cy_webhooks args) (cy_logger args) ;;
  ret (damped, final).

(** Modelled from the spec: the cycles run one after the other on the same
    expectation, one per probe response.  The result lists, cycle by cycle,
    the expectation as [push_status] received it, and gives the expectation
    after the last cycle. *)
Fixpoint run_cycles (args : CycleArgs) (self : Expectation)
    (responses : list Response) : IO (list Expectation * Expectation) :=
  match responses with
  | [] => ret ([], self)
  | response :: rest =>
      step <- cycle args self response ;;
      tail <- run_cycles args (snd step) rest ;;
      ret (fst step :: fst tail, snd tail)
  end.

(** The number of status pushes sent to the backend in a trace. *)
Definition is_push_status (ev : Event) : bool :=
  match ev with
  | PushStatus _ _ => true
  | _ => false
  end.

Definition is_external_call (ev : Event) : bool :=
  match ev with
  | LogInfo _ | LogWarning _ => false
  | _ => true
  end.

Definition count_push_status (h : list Event) : nat :=
  length (filter (fun ev => is_push_status ev = true) h).

(** The number of positions at which a status differs from the one before
    it. *)
Fixpoint status_changes (previous : ComponentStatus)
    (statuses : list ComponentStatus) : nat :=
  match statuses with
  | [] => 0
  | s :: rest =>
      ((if bool_decide (previous = s) then 0 else 1)
         + status_changes s rest)%nat
  end.

(** The document that spells a path: one-key mappings nested along the
    segments, with a value at the end. *)
Fixpoint nest_along (segments : list string) (v : PyVal) : PyVal :=
  match segments with
  | [] => v
  | segment :: rest => VDict [(segment, nest_along rest v)]
  end.

(** *** The dotted-path traversal in the words of the specification *)

(** What a traversal reaches. *)
Inductive Reached : Type :=
  | Found (v : PyVal)
  | MissingPath
  | TypeMismatch.

(** Walk segments through nested mappings; a missing segment yields an empty
    mapping; anything that is not a mapping is a type mismatch ([None]). *)
Fixpoint spec_walk (segments : list string) (mapping : PyVal)
    : option PyVal :=
  match segments with
  | [] => Some mapping
  | segment :: rest =>
      match mapping with
      | VDict d =>
          match entries_get segment d with
          | Some inner => spec_walk rest inner
          | None => spec_walk rest (VDict [])
          end
      | _ => None
      end
  end.

(** Split the field name on [.], walk all but the last segment, then look
    the last segment up. *)
Definition dotted_path_value (doc : PyVal) (field : string) : Reached :=
  let segments := str_split "." field in
  match spec_walk (removelast segments) doc with
  | Some (VDict d) =>
      match entries_get (List.last segments "") d with
      | Some v => Found v
      | None => MissingPath
      end
  | _ => TypeMismatch
  end.

(** *** Reading traces *)

(** The calls made on the backend and the webhooks, without the log lines. *)
Definition external_calls (h : list Event) : list Event :=
  filter (fun ev => is_external_call ev = true) h.

(** The call each webhook receives from [trigger_webhooks]. *)
Definition webhook_calls (self : Expectation) (incident_title : string)
    (webhooks : list Webhook) : list Event :=
  map (fun webhook =>
         WebhookPushIncident (url webhook) incident_title (message self))
    webhooks.

(** The attributes no lifecycle method assigns. *)
Definition static_fields (self : Expectation) :=
  (kind self, incident_status self, component_id self, independent self,
   componemt_name self, allowed_fails self).

(** What [trigger_webhooks] may write to the log: for one of the webhooks, the
    line of a delivery that succeeded, with the computed title, or the line
    of one that failed, with the status code of the reply. *)
Definition webhook_log_event (title : string) (webhooks : list Webhook)
    (ev : Event) : Prop :=
  match ev with
  | LogInfo line =>
      exists w, w ∈ webhooks /\
        line = "Webhook " +:+ url w +:+ " triggered with " +:+ title
  | LogWarning line =>
      exists (w : Webhook) (code : Z), w ∈ webhooks /\
        line = "Webhook " +:+ url w +:+ " failed with status ["
                 +:+ pretty code +:+ "]"
  | WebhookPushIncident _ _ _ => True
  | _ => False
  end.

(** *** Concrete collaborators and inputs for the examples *)

Definition reply (success : bool) (code : Z) (id : Z) : Reply :=
  {| ok := success; reply_status_code := code; json_data_id := id |}.

(** A backend that reports the component "db" as operational and accepts
    every call; a created incident gets the identifier 41. *)
Definition demo_client : CachetClient :=
  {| get_component_name_and_status := fun _ _ => ("db", OPERATIONAL);
     get_component_status := fun _ _ => OPERATIONAL;
     client_push_status := fun _ _ _ => reply true 200 0;
     client_push_incident := fun _ _ _ _ _ _ _ => reply true 200 41 |}.

(** A backend that refuses every write. *)
Definition demo_failing_client : CachetClient :=
  {| get_component_name_and_status := fun _ _ => ("db", OPERATIONAL);
     get_component_status := fun _ _ => OPERATIONAL;
     client_push_status := fun _ _ _ => reply false 500 0;
     client_push_incident := fun _ _ _ _ _ _ _ => reply false 500 0 |}.

Definition demo_webhook : Webhook :=
  {| url := "http://hook";
     webhook_push_incident := fun _ _ _ => reply true 200 0 |}.

Definition demo_failing_webhook : Webhook :=
  {| url := "http://down";
     webhook_push_incident := fun _ _ _ => reply false 503 0 |}.

Definition demo_status_str (s : ComponentStatus) : string :=
  match s with
  | OPERATIONAL => "ComponentStatus.OPERATIONAL"
  | PERFORMANCE_ISSUES => "ComponentStatus.PERFORMANCE_ISSUES"
  | PARTIAL_OUTAGE => "ComponentStatus.PARTIAL_OUTAGE"
  | MAJOR_OUTAGE => "ComponentStatus.MAJOR_OUTAGE"
  end.

Definition demo_incident_map : gmap string ComponentStatus :=
  <["MAJOR" := MAJOR_OUTAGE]> ∅.

(** The body [{"data": {"status": "UP", "other": 3}}] of the tests. *)
Definition demo_body_up : string :=
  "{" +:+ dquote +:+ "data" +:+ dquote +:+ ": {" +:+ dquote +:+ "status"
    +:+ dquote +:+ ": " +:+ dquote +:+ "UP" +:+ dquote +:+ ", " +:+ dquote
    +:+ "other" +:+ dquote +:+ ": 3}}".

(** [json.loads] on the bodies the examples use; every other body is taken to
    be unparsable. *)
Definition demo_json_loads (body : string) : option PyVal :=
  if String.eqb body "{}" then Some (VDict [])
  else if String.eqb body "[1, 2]" then Some (VList [VInt 1; VInt 2])
  else if String.eqb body demo_body_up then
    Some (VDict [("data", VDict [("status", VStr "UP"); ("other", VInt 3)])])
  else None.

Definition demo_response (code : Z) (body : string) : Response :=
  {| status_code := code; text := body;
     elapsed_total_seconds := FFinite (inject_Z 0) |}.

Definition demo_configuration : Configuration :=
  {| cfg_type := Some "HTTP_STATUS"; cfg_incident := Some "MAJOR";
     cfg_component_id := Some 7; cfg_allowed_fails := Some 2;
     cfg_is_independent := None; cfg_status_range := Some (VStr "200-300");
     cfg_threshold := None; cfg_regex := None; cfg_field := None;
     cfg_value := None |}.

(** A bound expectation as [HttpStatus(demo_configuration, demo_client)]
    leaves it. *)
Definition demo_expectation : Expectation :=
  {| kind := HttpStatus (200, 300); incident_status := MAJOR_OUTAGE;
     component_id := Some 7; independent := false; componemt_name := "db";
     component_status := OPERATIONAL;
     previous_component_status := OPERATIONAL;
     current_fails := 0; trigger_update := true; message := "";
     allowed_fails := Some 2; incident_id := None |}.

Definition demo_args : CycleArgs :=
  {| cy_client := demo_client; cy_allowed_fails := 0;
     cy_public_incidents := true; cy_endpoint_name := "api";
     cy_incident_title := "Incident";
     cy_webhooks := [demo_failing_webhook; demo_webhook];
     cy_logger := Some logging_logger |}.

Definition demo_py_str (v : PyVal) : string :=
  match v with
  | VNone => "None"
  | VStr s => s
  | VInt n => pretty n
  | VBool true => "True"
  | VBool false => "False"
  | _ => "..."
  end.

Definition demo_format_4f (f : pyfloat) : string := "0.0000".

Definition demo_re_compile (pattern : string) : bool := true.

(** A matcher that knows literal patterns only. *)
Definition demo_re_match (pattern : string) (body : string) : bool :=
  String.prefix pattern body.

(** [demo_expectation] after the evaluation of a probe answered with 500. *)
Definition demo_outage : Expectation :=
  {| kind := HttpStatus (200, 300); incident_status := MAJOR_OUTAGE;
     component_id := Some 7; independent := false; componemt_name := "db";
     component_status := MAJOR_OUTAGE;
     previous_component_status := OPERATIONAL;
     current_fails := 0; trigger_update := true;
     message := "Unexpected HTTP status (500)";
     allowed_fails := Some 2; incident_id := None |}.

(** The expectation of the JSON tests: field "data.status", value "UP". *)
Definition demo_json_expectation : Expectation :=
  {| kind := JsonFieldValueCheck "data.status" (VStr "UP") ["data"; "status"];
     incident_status := PARTIAL_OUTAGE;
     component_id := None; independent := false; componemt_name := "";
     component_status := OPERATIONAL;
     previous_component_status := OPERATIONAL;
     current_fails := 0; trigger_update := true; message := "";
     allowed_fails := None; incident_id := None |}.

(** The same check configured with the value [None] (a YAML null). *)
Definition demo_null_expectation : Expectation :=
  {| kind := JsonFieldValueCheck "data.status" VNone ["data"; "status"];
     incident_status := PARTIAL_OUTAGE;
     component_id := None; independent := false; componemt_name := "";
     component_status := OPERATIONAL;
     previous_component_status := OPERATIONAL;
     current_fails := 0; trigger_update := true; message := "";
     allowed_fails := None; incident_id := None |}.

Definition demo_unknown_configuration : Configuration :=
  {| cfg_type := Some "PING"; cfg_incident := None;
     cfg_component_id := Some 7; cfg_allowed_fails := None;
     cfg_is_independent := None; cfg_status_range := None;
     cfg_threshold := None; cfg_regex := None; cfg_field := None;
     cfg_value := None |}.

(** A JSON check whose configuration lacks the expected value. *)
Definition demo_incomplete_configuration : Configuration :=
  {| cfg_type := Some "JSON_CHECK"; cfg_incident := None;
     cfg_component_id := None; cfg_allowed_fails := None;
     cfg_is_independent := None; cfg_status_range := None;
     cfg_threshold := None; cfg_regex := None;
     cfg_field := Some "data.status"; cfg_value := None |}.

(** An unbound HTTP check on the single code 204. *)
Definition demo_single_configuration : Configuration :=
  {| cfg_type := Some "HTTP_STATUS"; cfg_incident := None;
     cfg_component_id := None; cfg_allowed_fails := None;
     cfg_is_independent := None; cfg_status_range := Some (VInt 204);
     cfg_threshold := None; cfg_regex := None; cfg_field := None;
     cfg_value := None |}.

(** [demo_expectation] with the range "300-200". *)
Definition demo_inverted_expectation : Expectation :=
  {| kind := HttpStatus (300, 200); incident_status := MAJOR_OUTAGE;
     component_id := Some 7; independent := false; componemt_name := "db";
     component_status := OPERATIONAL;
     previous_component_status := OPERATIONAL;
     current_fails := 0; trigger_update := true; message := "";
     allowed_fails := Some 2; incident_id := None |}.

(** [demo_expectation] without an [allowed_fails] of its own. *)
Definition demo_undamped_expectation : Expectation :=
  {| kind := HttpStatus (200, 300); incident_status := MAJOR_OUTAGE;
     component_id := Some 7; independent := false; componemt_name := "db";
     component_status := OPERATIONAL;
     previous_component_status := OPERATIONAL;
     current_fails := 0; trigger_update := true; message := "";
     allowed_fails := None; incident_id := None |}.

(** The body [{"data": {"status": "UP"}}] and [json.loads] on it. *)
Definition demo_body_status_up : string :=
  "{" +:+ dquote +:+ "data" +:+ dquote +:+ ": {" +:+ dquote +:+ "status"
    +:+ dquote +:+ ": " +:+ dquote +:+ "UP" +:+ dquote +:+ "}}".

Definition demo_json_loads_nested (body : string) : option PyVal :=
  if String.eqb body demo_body_status_up then
    Some (VDict [("data", VDict [("status", VStr "UP")])])
  else None.

(** ** Properties *)

(** Forget the parameters of the section a goal does not mention. *)
Ltac drop_env :=
  try clear INCIDENT_MAP; try clear status_str; try clear py_str;
  try clear format_4f; try clear json_loads; try clear re_compile;
  try clear re_match; try clear python_int.

(** *** Strings and ranges *)

Lemma str_split_nonempty (sep : ascii) (s : string) : str_split sep s <> [].
Proof.
  induction s as [|c s IH]; simpl; [discriminate|].
  destruct (Ascii.eqb c sep); [discriminate|].
  destruct (str_split sep s); discriminate.
Qed.

Lemma parse_range_single (s p : string) :
  str_split "-" s = [p] ->
  HttpStatus_parse_range (VStr s) =
    match int_str python_int p with
    | Some n => Return (n, n + 1)
    | None => Raise (ValueError p)
    end.
Proof.
  intros Hs. simpl. rewrite Hs. unfold int_of_str.
  destruct (int_str python_int p); reflexivity.
Qed.

Lemma parse_range_pair (s p q : string) (rest : list string) :
  str_split "-" s = p :: q :: rest ->
  HttpStatus_parse_range (VStr s) =
    match int_str python_int p, int_str python_int q with
    | Some lo, Some hi => Return (lo, hi)
    | None, _ => Raise (ValueError p)
    | Some _, None => Raise (ValueError q)
    end.
Proof.
  intros Hs. simpl. rewrite Hs. unfold int_of_str.
  destruct (int_str python_int p), (int_str python_int q); reflexivity.
Qed.

Lemma int_str_200 : int_str python_int "200" = Some 200.
Proof.
  apply (int_str_digits python_int "200");
    [discriminate|reflexivity|simpl; lia].
Qed.

Lemma int_str_300 : int_str python_int "300" = Some 300.
Proof.
  apply (int_str_digits python_int "300");
    [discriminate|reflexivity|simpl; lia].
Qed.

Lemma parse_range_literals :
  HttpStatus_parse_range (VStr "200") = Return (200, 201) /\
  HttpStatus_parse_range (VStr "200-300") = Return (200, 300) /\
  HttpStatus_parse_range (VStr "foo") = Raise (ValueError "foo").
Proof.
  split_and!.
  - rewrite (parse_range_single "200" "200" eq_refl), int_str_200.
    reflexivity.
  - rewrite (parse_range_pair "200-300" "200" "300" [] eq_refl),
      int_str_200, int_str_300. reflexivity.
  - rewrite (parse_range_single "foo" "foo" eq_refl),
      (int_str_letter python_int "foo" eq_refl). reflexivity.
Qed.

Lemma parse_range_three_segments :
  HttpStatus_parse_range (VStr "200-300-400") = Return (200, 300).
Proof.
  rewrite (parse_range_pair "200-300-400" "200" "300" ["400"] eq_refl),
    int_str_200, int_str_300. reflexivity.
Qed.

(** C7 (as amended).  [HttpStatus.parse_range] maps 200 and "200" to
    (200, 201) and "200-300" to (200, 300), and "foo" fails with a
    [ValueError].  An integer [n] always gives (n, n + 1).  A string parses
    exactly when [int] accepts its first dash-separated segment, and its
    second when there is one; the segments after the second are not looked
    at.  A string that fails does so with the [ValueError] of one of these
    two segments. *)
Theorem parse_range_spec :
  (HttpStatus_parse_range (VInt 200) = Return (200, 201) /\
   HttpStatus_parse_range (VStr "200") = Return (200, 201) /\
   HttpStatus_parse_range (VStr "200-300") = Return (200, 300) /\
   HttpStatus_parse_range (VStr "foo") = Raise (ValueError "foo")) /\
  (forall n : Z, HttpStatus_parse_range (VInt n) = Return (n, n + 1)) /\
  (forall s : string,
     (exists r, HttpStatus_parse_range (VStr s) = Return r) <->
     Forall (fun p => is_Some (int_str python_int p))
       (take 2 (str_split "-" s))) /\
  (forall (s p q : string) (rest : list string),
     str_split "-" s = p :: q :: rest ->
     HttpStatus_parse_range (VStr s) =
       match int_str python_int p, int_str python_int q with
       | Some lo, Some hi => Return (lo, hi)
       | None, _ => Raise (ValueError p)
       | Some _, None => Raise (ValueError q)
       end) /\
  (forall (s : string) (e : Exception),
     HttpStatus_parse_range (VStr s) = Raise e ->
     exists lit, e = ValueError lit /\ int_str python_int lit = None
                 /\ lit ∈ take 2 (str_split "-" s)).
Proof.
  split; [split; [reflexivity|exact parse_range_literals]|].
  split; [reflexivity|].
  split; [|split; [exact parse_range_pair|]].
  - intros s. destruct (str_split "-" s) as [|p [|q rest]] eqn:Hs.
    + exfalso. eapply str_split_nonempty, Hs.
    + rewrite (parse_range_single s p Hs). simpl. split.
      * intros [r Hr]. constructor; [|constructor].
        destruct (int_str python_int p); [eexists; reflexivity|discriminate].
      * intros HF. inversion HF as [|? ? [n Hn] _]; subst.
        rewrite Hn. eexists; reflexivity.
    + rewrite (parse_range_pair s p q rest Hs). simpl. split.
      * intros [r Hr].
        constructor; [|constructor; [|constructor]];
          destruct (int_str python_int p), (int_str python_int q);
          try discriminate; eexists; reflexivity.
      * intros HF. inversion HF as [|? ? [lo Hlo] HF']; subst.
        inversion HF' as [|? ? [hi Hhi] _]; subst.
        rewrite Hlo, Hhi. eexists; reflexivity.
  - intros s e. destruct (str_split "-" s) as [|p [|q rest]] eqn:Hs.
    + exfalso. eapply str_split_nonempty, Hs.
    + rewrite (parse_range_single s p Hs). simpl.
      destruct (int_str python_int p) eqn:Hp; [discriminate|].
      intros [= <-]. exists p. split; [reflexivity|]. split; [assumption|].
      left.
    + rewrite (parse_range_pair s p q rest Hs). simpl.
      destruct (int_str python_int p) eqn:Hp;
        [destruct (int_str python_int q) eqn:Hq|];
        try discriminate; intros [= <-].
      * exists q. split; [reflexivity|]. split; [assumption|]. right. left.
      * exists p. split; [reflexivity|]. split; [assumption|]. left.
Qed.

(** *** Evaluators *)

Lemma HttpStatus_get_status_in_range (lower upper : Z)
    (incident : ComponentStatus) (response : Response) :
  HttpStatus_get_status (lower, upper) incident response =
    if bool_decide (lower <= status_code response < upper)
    then OPERATIONAL else incident.
Proof.
  unfold HttpStatus_get_status. simpl.
  case_bool_decide as Hr.
  - destruct Hr as [Hl Hu].
    apply Z.leb_le in Hl. apply Z.ltb_lt in Hu. rewrite Hl, Hu. reflexivity.
  - destruct (Z.leb_spec lower (status_code response));
      destruct (Z.ltb_spec (status_code response) upper);
      simpl; try reflexivity.
    exfalso. apply Hr. lia.
Qed.

Lemma HttpStatus_init_Return (configuration : Configuration)
    (client : CachetClient) (h h' : list Event) (self : Expectation) :
  HttpStatus_init configuration client h = Return (self, h') ->
  exists range_string status_range,
    cfg_status_range configuration = Some range_string /\
    HttpStatus_parse_range range_string = Return status_range /\
    Expectation_init (HttpStatus status_range) configuration client h
      = (self, h').
Proof.
  unfold HttpStatus_init.
  destruct (cfg_status_range configuration) as [range_string|];
    [|discriminate].
  destruct (HttpStatus_parse_range range_string) as [status_range|] eqn:Hp;
    simpl; [|discriminate].
  intros [= Hinit]. eauto.
Qed.

Lemma Expectation_init_static (k : Kind) (configuration : Configuration)
    (client : CachetClient) (h : list Event) :
  kind (Expectation_init k configuration client h).1 = k /\
  incident_status (Expectation_init k configuration client h).1
    = parse_incident_status k configuration /\
  component_id (Expectation_init k configuration client h).1
    = cfg_component_id configuration.
Proof.
  unfold Expectation_init.
  destruct (cfg_component_id configuration); simpl; auto.
Qed.

(** C8.  For an [HttpStatus] expectation with range (lower, upper),
    [get_status] returns OPERATIONAL when lower <= c < upper and the
    expectation's resolved [incident_status] otherwise, so it returns
    OPERATIONAL exactly on the range when the incident status is not
    OPERATIONAL itself.  The resolved status of a constructed expectation is
    the one the configuration's incident label maps to, and the evaluator
    default only without one.  With the range "200-300" the codes 200 and 299
    are OPERATIONAL and 300 is the incident status. *)
Theorem HttpStatus_get_status_spec (self : Expectation) (lower upper : Z)
    (response : Response) :
  kind self = HttpStatus (lower, upper) ->
  (lower <= status_code response < upper ->
     get_status self response = OPERATIONAL) /\
  (~ (lower <= status_code response < upper) ->
     get_status self response = incident_status self) /\
  (incident_status self <> OPERATIONAL ->
     (get_status self response = OPERATIONAL
      <-> lower <= status_code response < upper)) /\
  (forall configuration client h h',
     HttpStatus_init configuration client h = Return (self, h') ->
     incident_status self =
       match cfg_incident configuration with
       | Some label => default PARTIAL_OUTAGE (INCIDENT_MAP !! label)
       | None => PARTIAL_OUTAGE
       end /\
     (cfg_status_range configuration = Some (VStr "200-300") ->
        (status_code response = 200 -> get_status self response = OPERATIONAL)
        /\ (status_code response = 299 ->
              get_status self response = OPERATIONAL)
        /\ (status_code response = 300 ->
              get_status self response = incident_status self))).
Proof.
  intros Hk.
  assert (Hget : get_status self response =
                 if bool_decide (lower <= status_code response < upper)
                 then OPERATIONAL else incident_status self).
  { unfold get_status. rewrite Hk. apply HttpStatus_get_status_in_range. }
  split; [|split; [|split]].
  - intros Hr. rewrite Hget, bool_decide_true by assumption. reflexivity.
  - intros Hr. rewrite Hget, bool_decide_false by assumption. reflexivity.
  - intros Hinc. rewrite Hget. case_bool_decide; split; intros; try done.
  - intros configuration client h h' Hinit.
    apply HttpStatus_init_Return in Hinit
      as (range_string & status_range & Hcfg & Hparse & Hinit).
    pose proof (Expectation_init_static (HttpStatus status_range)
                  configuration client h) as (Hkind & Hinc & _).
    rewrite Hinit in Hkind, Hinc. simpl in Hkind, Hinc.
    split; [exact Hinc|].
    intros Hrange. rewrite Hcfg in Hrange. injection Hrange as ->.
    rewrite (proj1 (proj2 parse_range_literals)) in Hparse.
    injection Hparse as <-.
    rewrite Hk in Hkind. injection Hkind as -> ->.
    rewrite Hget.
    repeat split; intros ->; reflexivity.
Qed.

Lemma walk_fields_spec_walk (segments : list string) (doc : PyVal) :
  walk_fields segments doc =
    match spec_walk segments doc with
    | Some m => Return m
    | None => Raise (AttributeError "get")
    end.
Proof.
  revert doc. induction segments as [|segment rest IH]; intros doc;
    [reflexivity|].
  simpl. destruct doc; simpl; try reflexivity.
  destruct (entries_get segment entries); simpl; apply IH.
Qed.

Lemma last_nonempty {A} (l : list A) (d : A) :
  l <> [] -> last l = Some (List.last l d).
Proof.
  induction l as [|x [|y l] IH]; intros Hl; [done|reflexivity|].
  change (last (y :: l) = Some (List.last (y :: l) d)).
  apply IH. discriminate.
Qed.

Lemma take_all_but_last {A} (l : list A) :
  take (length l - 1)%nat l = removelast l.
Proof. rewrite removelast_firstn_len, Nat.sub_1_r. reflexivity. Qed.

Lemma JsonFieldValueCheck_lookup_spec (field : string) (response : Response) :
  JsonFieldValueCheck_lookup (str_split "." field) response =
    match json_loads (text response) with
    | None => Raise (JSONDecodeError (text response))
    | Some doc =>
        match dotted_path_value doc field with
        | Found v => Return v
        | MissingPath => Return VNone
        | TypeMismatch => Raise (AttributeError "get")
        end
    end.
Proof.
  unfold JsonFieldValueCheck_lookup, dotted_path_value.
  destruct (json_loads (text response)) as [doc|]; simpl; [|reflexivity].
  rewrite take_all_but_last, walk_fields_spec_walk.
  rewrite (last_nonempty _ "" (str_split_nonempty _ _)).
  destruct (spec_walk (removelast (str_split "." field)) doc) as [m|];
    simpl; [|reflexivity].
  destruct m; simpl; try reflexivity.
  destruct (entries_get _ entries); reflexivity.
Qed.

(** C6 (as amended).  [JsonFieldValueCheck.get_status] never raises: it
    returns OPERATIONAL or the resolved [incident_status].  It returns the
    incident status for an unparsable body and for a type mismatch during
    the traversal; when the traversal finds a value it returns OPERATIONAL
    exactly when that value equals the configured one; a missing path reads
    as [None], so it yields the incident status unless the configured value
    is [None] itself, in which case it yields OPERATIONAL. *)
Theorem JsonFieldValueCheck_get_status_spec (self : Expectation)
    (field : string) (value : PyVal) (response : Response) :
  kind self = JsonFieldValueCheck field value (str_split "." field) ->
  (get_status self response = OPERATIONAL
   \/ get_status self response = incident_status self) /\
  (json_loads (text response) = None ->
     get_status self response = incident_status self) /\
  (forall doc, json_loads (text response) = Some doc ->
     match dotted_path_value doc field with
     | Found v =>
         get_status self response =
           if py_eq v value then OPERATIONAL else incident_status self
     | TypeMismatch => get_status self response = incident_status self
     | MissingPath =>
         (value <> VNone -> get_status self response = incident_status self)
         /\ (value = VNone -> get_status self response = OPERATIONAL)
     end).
Proof.
  intros Hk.
  assert (Hget : get_status self response =
                 match JsonFieldValueCheck_lookup (str_split "." field)
                         response with
                 | Return found =>
                     if py_eq found value then OPERATIONAL
                     else incident_status self
                 | Raise _ => incident_status self
                 end).
  { unfold get_status. rewrite Hk. reflexivity. }
  rewrite JsonFieldValueCheck_lookup_spec in Hget.
  split; [|split].
  - rewrite Hget. destruct (json_loads (text response)) as [doc|]; [|auto].
    destruct (dotted_path_value doc field); [| |auto].
    + destruct (py_eq v value); auto.
    + destruct (py_eq VNone value); auto.
  - intros Hj. rewrite Hj in Hget. exact Hget.
  - intros doc Hj. rewrite Hj in Hget.
    destruct (dotted_path_value doc field); try exact Hget.
    split.
    + intros Hv. rewrite Hget. destruct value; done.
    + intros ->. exact Hget.
Qed.

(** *** Construction *)

Lemma expectations_lookup_unknown (type : string) :
  type <> "HTTP_STATUS" -> type <> "LATENCY" -> type <> "REGEX" ->
  type <> "JSON_CHECK" ->
  expectations !! type = None.
Proof.
  intros H1 H2 H3 H4. unfold expectations.
  rewrite !lookup_insert_ne by congruence.
  apply lookup_empty.
Qed.

Lemma instantiate_Return (cls : ExpectationClass)
    (configuration : Configuration) (client : CachetClient)
    (h h' : list Event) (self : Expectation) :
  instantiate cls configuration client h = Return (self, h') ->
  exists k, Expectation_init k configuration client h = (self, h').
Proof.
  destruct cls; simpl.
  - intros Hinit. apply HttpStatus_init_Return in Hinit
      as (? & status_range & _ & _ & Hinit). eauto.
  - unfold Latency_init. destruct (cfg_threshold configuration);
      [|discriminate]. intros [= Hinit]. eauto.
  - unfold Regex_init. destruct (cfg_regex configuration); [|discriminate].
    destruct (re_compile _); [|discriminate]. intros [= Hinit]. eauto.
  - unfold JsonFieldValueCheck_init.
    destruct (cfg_field configuration); [|discriminate].
    destruct (cfg_value configuration); [|discriminate].
    intros [= Hinit]. eauto.
Qed.

Lemma instantiate_Raise (cls : ExpectationClass)
    (configuration : Configuration) (client client' : CachetClient)
    (h h' : list Event) (e : Exception) :
  instantiate cls configuration client h = Raise e ->
  instantiate cls configuration client' h' = Raise e.
Proof.
  destruct cls; simpl.
  - unfold HttpStatus_init. destruct (cfg_status_range configuration);
      [|done]. destruct (HttpStatus_parse_range _); simpl; done.
  - unfold Latency_init. destruct (cfg_threshold configuration); done.
  - unfold Regex_init. destruct (cfg_regex configuration); [|done].
    destruct (re_compile _); done.
  - unfold JsonFieldValueCheck_init.
    destruct (cfg_field configuration); [|done].
    destruct (cfg_value configuration); done.
Qed.

Lemma create_Return (configuration : Configuration) (client : CachetClient)
    (h h' : list Event) (self : Expectation) :
  create configuration client h = Return (self, h') ->
  exists k, Expectation_init k configuration client h = (self, h').
Proof.
  unfold create. destruct (cfg_type configuration) as [type|]; [|discriminate].
  destruct (expectations !! type) as [cls|]; [|discriminate].
  apply instantiate_Return.
Qed.

(** C9.  For a configuration whose [type] is none of HTTP_STATUS, LATENCY,
    REGEX and JSON_CHECK, [Expectation.create] raises the
    [ConfigurationValidationError] whose message names that type; it does so
    whatever the client and the history are, so nothing else is raised and
    the client is never called.  More generally a failure of [create] is
    decided by the configuration alone. *)
Theorem create_unknown_type (configuration : Configuration)
    (client : CachetClient) (h : list Event) (type : string) :
  cfg_type configuration = Some type ->
  type <> "HTTP_STATUS" -> type <> "LATENCY" -> type <> "REGEX" ->
  type <> "JSON_CHECK" ->
  create configuration client h
    = Raise (ConfigurationValidationError ("Invalid type: " +:+ type)) /\
  (forall e client' h',
     create configuration client' h' = Raise e ->
     e = ConfigurationValidationError ("Invalid type: " +:+ type)) /\
  (forall configuration' client' h' e,
     create configuration' client h = Raise e ->
     create configuration' client' h' = Raise e).
Proof.
  intros Htype H1 H2 H3 H4.
  assert (Hcreate : forall client' h',
             create configuration client' h'
             = Raise (ConfigurationValidationError ("Invalid type: " +:+ type))).
  { intros client' h'. unfold create.
    rewrite Htype, expectations_lookup_unknown by assumption. reflexivity. }
  split; [apply Hcreate|split].
  - intros e client' h'. rewrite Hcreate. congruence.
  - intros configuration' client' h' e. unfold create.
    destruct (cfg_type configuration') as [type'|]; [|done].
    destruct (expectations !! type') as [cls|]; [|done].
    apply instantiate_Raise.
Qed.

(** C10.  The constructor of a bound expectation makes exactly one
    [get_component_name_and_status] query and leaves [component_status] and
    [previous_component_status] both equal to the status that query
    returned, [current_fails] 0, [trigger_update] true, an empty [message]
    and no open incident; [independent] is false when [is_independent] is
    absent from the configuration.  Every expectation [create] returns comes
    out of this constructor. *)
Theorem Expectation_init_bound (k : Kind) (configuration : Configuration)
    (client : CachetClient) (h : list Event) (cid : Z) :
  cfg_component_id configuration = Some cid ->
  let out := Expectation_init k configuration client h in
  let self := out.1 in
  out.2 = (h ++ [GetComponentNameAndStatus cid])%list /\
  component_id self = Some cid /\
  component_status self = (get_component_name_and_status client h cid).2 /\
  previous_component_status self
    = (get_component_name_and_status client h cid).2 /\
  componemt_name self = (get_component_name_and_status client h cid).1 /\
  current_fails self = 0 /\
  trigger_update self = true /\
  message self = "" /\
  incident_id self = None /\
  allowed_fails self = cfg_allowed_fails configuration /\
  independent self = default false (cfg_is_independent configuration) /\
  (cfg_is_independent configuration = None -> independent self = false) /\
  (forall created h',
     create configuration client h = Return (created, h') ->
     exists k', Expectation_init k' configuration client h = (created, h')).
Proof.
  intros Hcid out self. subst self out.
  assert (Heq : Expectation_init k configuration client h =
                ({| kind := k;
                    incident_status := parse_incident_status k configuration;
                    component_id := Some cid;
                    independent :=
                      default false (cfg_is_independent configuration);
                    componemt_name :=
                      (get_component_name_and_status client h cid).1;
                    component_status :=
                      (get_component_name_and_status client h cid).2;
                    previous_component_status :=
                      (get_component_name_and_status client h cid).2;
                    current_fails := 0; trigger_update := true;
                    message := "";
                    allowed_fails := cfg_allowed_fails configuration;
                    incident_id := None |},
                 (h ++ [GetComponentNameAndStatus cid])%list)).
  { unfold Expectation_init. rewrite Hcid. reflexivity. }
  rewrite Heq. simpl. split_and!; try reflexivity.
  - intros ->. reflexivity.
  - intros created h'. apply create_Return.
Qed.

(** *** Traces *)

Lemma external_calls_app (h1 h2 : list Event) :
  external_calls (h1 ++ h2)%list
  = (external_calls h1 ++ external_calls h2)%list.
Proof. apply filter_app. Qed.

Lemma count_push_status_app (h1 h2 : list Event) :
  count_push_status (h1 ++ h2)%list
  = (count_push_status h1 + count_push_status h2)%nat.
Proof. unfold count_push_status. rewrite filter_app, length_app. done. Qed.

Lemma count_push_status_external (h : list Event) :
  count_push_status (external_calls h) = count_push_status h.
Proof.
  unfold count_push_status, external_calls.
  induction h as [|ev h IH]; [reflexivity|].
  destruct ev; simpl;
    rewrite ?filter_cons_True, ?filter_cons_False by (simpl; congruence);
    simpl;
    rewrite ?filter_cons_True, ?filter_cons_False by (simpl; congruence);
    simpl; rewrite ?IH; reflexivity.
Qed.

Lemma count_push_status_webhook_calls (self : Expectation) (title : string)
    (webhooks : list Webhook) :
  count_push_status (webhook_calls self title webhooks) = 0%nat.
Proof.
  unfold count_push_status, webhook_calls.
  induction webhooks as [|w ws IH]; [reflexivity|].
  simpl. rewrite filter_cons_False by (simpl; congruence). exact IH.
Qed.

Ltac io_unfold :=
  unfold bind, call, ret, logger_info, logger_warning in *; simpl in *.

(** *** Webhooks *)

Lemma webhook_log_event_cons (title : string) (w : Webhook)
    (ws : list Webhook) (new : list Event) :
  Forall (webhook_log_event title ws) new ->
  Forall (webhook_log_event title (w :: ws)) new.
Proof.
  drop_env.
  intros Hnew. eapply Forall_impl; [exact Hnew|].
  intros [] Hev; simpl in *; try done.
  - destruct Hev as (w' & Hin & ->). exists w'. split; [set_solver|done].
  - destruct Hev as (w' & code & Hin & ->). exists w', code.
    split; [set_solver|done].
Qed.

Lemma trigger_webhooks_trace (self : Expectation) (endpoint_name : string)
    (incident_title : string) (webhooks : list Webhook)
    (logger : option Logger) (h : list Event) :
  component_id self <> None ->
  exists new,
    trigger_webhooks self endpoint_name incident_title webhooks logger h
      = (tt, (h ++ new)%list) /\
    external_calls new = webhook_calls self incident_title webhooks /\
    (logger = None -> new = webhook_calls self incident_title webhooks) /\
    Forall (webhook_log_event (webhook_title self endpoint_name) webhooks) new.
Proof.
  drop_env.
  intros Hbound. unfold trigger_webhooks.
  destruct (component_id self) as [cid|]; [clear Hbound|done].
  revert h. induction webhooks as [|w ws IH]; intros h.
  - exists []. simpl. unfold ret. rewrite app_nil_r. auto.
  - simpl. io_unfold.
    set (request := webhook_push_incident w h incident_title (message self)).
    set (ev := WebhookPushIncident (url w) incident_title (message self)).
    destruct (ok request), logger as [lg|].
    all: match goal with
         | |- context [for_each _ _ ?h1] =>
             destruct (IH h1) as (new & Heq & Hcalls & Hnone & Hlog)
         end.
    all: rewrite Heq.
    all: apply (webhook_log_event_cons _ w) in Hlog.
    all: eexists; split; [rewrite <- ?app_assoc; reflexivity|].
    all: split; [rewrite ?external_calls_app, Hcalls; reflexivity|].
    all: split;
      [intros Hlg; try discriminate; rewrite (Hnone Hlg); reflexivity|].
    all: simpl; repeat apply Forall_cons_2; try exact Hlog; simpl; try done.
    + exists w. split; [set_solver|done].
    + exists w, (reply_status_code request). split; [set_solver|done].
Qed.


(** *** Incidents *)

Arguments trigger_webhooks : simpl never.

Ltac after_webhooks Hcid :=
  match goal with
  | |- context [trigger_webhooks ?s ?ep ?title ?whs None ?h1] =>
      let new := fresh "new" in
      let Heq := fresh "Heq" in
      let Hcalls := fresh "Hcalls" in
      destruct (trigger_webhooks_trace s ep title whs None h1)
        as (new & Heq & Hcalls & _);
      [simpl; rewrite Hcid; discriminate|rewrite Heq];
      eexists; split; [rewrite <- ?app_assoc; reflexivity|];
      rewrite ?external_calls_app, Hcalls; reflexivity
  end.

Lemma push_incident_recovery (self : Expectation) (client : CachetClient)
    (public_incidents : bool) (endpoint_name incident_title : string)
    (webhooks : list Webhook) (logger : option Logger) (h : list Event)
    (cid iid : Z) :
  component_id self = Some cid -> trigger_update self = true ->
  incident_id self = Some iid -> component_status self = OPERATIONAL ->
  let request :=
    client_push_incident client h OPERATIONAL public_incidents cid
      incident_title (Some iid) None in
  exists new,
    push_incident self client public_incidents endpoint_name incident_title
      webhooks logger h
    = (if ok request then set_incident_id None self else self,
       (h ++ new)%list) /\
    external_calls new =
      PushIncident OPERATIONAL public_incidents cid incident_title
        (Some iid) None :: webhook_calls self incident_title webhooks.
Proof.
  intros Hcid Htrig Hinc Hst request.
  unfold push_incident, hasattr_incident_id.
  rewrite Hcid, Htrig, Hinc, Hst. simpl. io_unfold.
  fold request.
  destruct (ok request), logger as [lg|]; after_webhooks Hcid.
Qed.

Lemma push_incident_onset (self : Expectation) (client : CachetClient)
    (public_incidents : bool) (endpoint_name incident_title : string)
    (webhooks : list Webhook) (logger : option Logger) (h : list Event)
    (cid : Z) :
  component_id self = Some cid -> trigger_update self = true ->
  incident_id self = None -> component_status self <> OPERATIONAL ->
  let request :=
    client_push_incident client h (component_status self) public_incidents
      cid incident_title None (Some (message self)) in
  exists new,
    push_incident self client public_incidents endpoint_name incident_title
      webhooks logger h
    = (if ok request then set_incident_id (Some (json_data_id request)) self
       else self,
       (h ++ new)%list) /\
    external_calls new =
      PushIncident (component_status self) public_incidents cid
        incident_title None (Some (message self))
      :: webhook_calls self incident_title webhooks.
Proof.
  intros Hcid Htrig Hinc Hst request.
  unfold push_incident, hasattr_incident_id.
  rewrite Hcid, Htrig, Hinc. simpl.
  rewrite (bool_decide_true (component_status self ≠ OPERATIONAL))
    by assumption.
  io_unfold. fold request.
  destruct (ok request), logger as [lg|]; after_webhooks Hcid.
Qed.

Lemma push_incident_idle (self : Expectation) (client : CachetClient)
    (public_incidents : bool) (endpoint_name incident_title : string)
    (webhooks : list Webhook) (logger : option Logger) (h : list Event) :
  component_id self = None \/ trigger_update self = false
  \/ (incident_id self <> None /\ component_status self <> OPERATIONAL)
  \/ (incident_id self = None /\ component_status self = OPERATIONAL) ->
  push_incident self client public_incidents endpoint_name incident_title
    webhooks logger h = (self, h).
Proof.
  unfold push_incident, hasattr_incident_id.
  destruct (component_id self) as [cid|]; [|reflexivity].
  destruct (trigger_update self); [|reflexivity]. simpl.
  intros [Hc|[Ht|[[Hinc Hst]|[Hinc Hst]]]]; try discriminate.
  - destruct (incident_id self); [|done]. simpl.
    rewrite bool_decide_false by assumption. reflexivity.
  - rewrite Hinc, Hst. reflexivity.
Qed.

(** C4.  For a bound expectation with [trigger_update] true, [push_incident]
    acts on two edges only.  Recovery (an incident is open and the status is
    OPERATIONAL): one incident-update call, [incident_id] cleared exactly
    when that call succeeds, then every webhook called whatever the outcome.
    Onset (no incident open and the status is not OPERATIONAL): one
    incident-create call carrying the current message, the returned
    identifier stored as [incident_id] exactly when the call succeeds, then
    every webhook called whatever the outcome.  In the two other
    combinations nothing is called and nothing changes. *)
Theorem push_incident_spec (self : Expectation) (client : CachetClient)
    (public_incidents : bool) (endpoint_name incident_title : string)
    (webhooks : list Webhook) (logger : option Logger) (h : list Event)
    (cid : Z) :
  component_id self = Some cid ->
  trigger_update self = true ->
  let out :=
    push_incident self client public_incidents endpoint_name incident_title
      webhooks logger h in
  (forall iid,
     incident_id self = Some iid -> component_status self = OPERATIONAL ->
     let request :=
       client_push_incident client h OPERATIONAL public_incidents cid
         incident_title (Some iid) None in
     out.1 = (if ok request then set_incident_id None self else self) /\
     exists new,
       out.2 = (h ++ new)%list /\
       external_calls new =
         PushIncident OPERATIONAL public_incidents cid incident_title
           (Some iid) None
         :: map (fun webhook =>
                   WebhookPushIncident (url webhook) incident_title
                     (message self)) webhooks) /\
  (incident_id self = None -> component_status self <> OPERATIONAL ->
     let request :=
       client_push_incident client h (component_status self)
         public_incidents cid incident_title None (Some (message self)) in
     out.1 = (if ok request
              then set_incident_id (Some (json_data_id request)) self
              else self) /\
     exists new,
       out.2 = (h ++ new)%list /\
       external_calls new =
         PushIncident (component_status self) public_incidents cid
           incident_title None (Some (message self))
         :: map (fun webhook =>
                   WebhookPushIncident (url webhook) incident_title
                     (message self)) webhooks) /\
  ((incident_id self <> None /\ component_status self <> OPERATIONAL)
   \/ (incident_id self = None /\ component_status self = OPERATIONAL) ->
     out = (self, h)).
Proof.
  intros Hcid Htrig out. subst out. split; [|split].
  - intros iid Hinc Hst request.
    destruct (push_incident_recovery self client public_incidents
                endpoint_name incident_title webhooks logger h cid iid
                Hcid Htrig Hinc Hst) as (new & Heq & Hcalls).
    rewrite Heq. split; [reflexivity|]. exists new. split; [reflexivity|].
    exact Hcalls.
  - intros Hinc Hst request.
    destruct (push_incident_onset self client public_incidents
                endpoint_name incident_title webhooks logger h cid
                Hcid Htrig Hinc Hst) as (new & Heq & Hcalls).
    rewrite Heq. split; [reflexivity|]. exists new. split; [reflexivity|].
    exact Hcalls.
  - intros Hidle. apply push_incident_idle. auto.
Qed.

Lemma push_incident_fields (self : Expectation) (client : CachetClient)
    (public_incidents : bool) (endpoint_name incident_title : string)
    (webhooks : list Webhook) (logger : option Logger) (h : list Event) :
  let out :=
    push_incident self client public_incidents endpoint_name incident_title
      webhooks logger h in
  static_fields out.1 = static_fields self /\
  component_status out.1 = component_status self /\
  previous_component_status out.1 = previous_component_status self /\
  current_fails out.1 = current_fails self /\
  trigger_update out.1 = trigger_update self /\
  exists new, out.2 = (h ++ new)%list /\ count_push_status new = 0%nat.
Proof.
  intros out. subst out.
  assert (Hidle : forall P : Expectation * list Event -> Prop,
             P (self, h) ->
             push_incident self client public_incidents endpoint_name
               incident_title webhooks logger h = (self, h) ->
             P (push_incident self client public_incidents endpoint_name
                  incident_title webhooks logger h)).
  { intros P HP ->. exact HP. }
  destruct (component_id self) as [cid|] eqn:Hcid;
    [|apply Hidle; [|apply push_incident_idle; auto]].
  2: { repeat split; try assumption. exists []. rewrite app_nil_r. done. }
  destruct (trigger_update self) eqn:Htrig;
    [|apply Hidle; [|apply push_incident_idle; auto]].
  2: { repeat split; try assumption. exists []. rewrite app_nil_r. done. }
  destruct (incident_id self) as [iid|] eqn:Hinc;
    destruct (decide (component_status self = OPERATIONAL)) as [Hst|Hst].
  - destruct (push_incident_recovery self client public_incidents
                endpoint_name incident_title webhooks logger h cid iid
                Hcid Htrig Hinc Hst) as (new & -> & Hcalls).
    simpl. destruct (ok _); simpl; repeat split; try assumption.
    all: exists new; split; [reflexivity|].
    all: rewrite <- count_push_status_external, Hcalls.
    all: apply (count_push_status_webhook_calls self).
  - apply Hidle; [|apply push_incident_idle; right; right; left;
                   split; congruence].
    repeat split; try assumption. exists []. rewrite app_nil_r. done.
  - apply Hidle; [|apply push_incident_idle; auto].
    repeat split; try assumption. exists []. rewrite app_nil_r. done.
  - destruct (push_incident_onset self client public_incidents
                endpoint_name incident_title webhooks logger h cid
                Hcid Htrig Hinc Hst) as (new & -> & Hcalls).
    simpl. destruct (ok _); simpl; repeat split; try assumption.
    all: exists new; split; [reflexivity|].
    all: rewrite <- count_push_status_external, Hcalls.
    all: apply (count_push_status_webhook_calls self).
Qed.

(** *** Status push *)

Lemma push_status_unchanged (self : Expectation) (client : CachetClient)
    (logger : option Logger) (h : list Event) :
  component_id self <> None ->
  previous_component_status self = component_status self ->
  push_status self client logger h =
    (set_trigger_update false self,
     (h ++ match logger with
           | Some _ => [LogInfo "No changes to component status."]
           | None => []
           end)%list).
Proof.
  intros Hcid Hsame. unfold push_status.
  destruct (component_id self); [|done].
  rewrite bool_decide_true by assumption. io_unfold.
  destruct logger; [reflexivity|]. rewrite app_nil_r. reflexivity.
Qed.

Ltac count_bound :=
  unfold count_push_status; simpl;
  rewrite ?filter_cons_True, ?filter_cons_False by (simpl; congruence);
  simpl; try case_bool_decide; try done; lia.

Lemma push_status_fields (self : Expectation) (client : CachetClient)
    (logger : option Logger) (h : list Event) :
  let out := push_status self client logger h in
  static_fields out.1 = static_fields self /\
  component_status out.1 = component_status self /\
  current_fails out.1 = current_fails self /\
  incident_id out.1 = incident_id self /\
  (component_id self <> None ->
   previous_component_status out.1 = component_status self) /\
  exists new,
    out.2 = (h ++ new)%list /\
    (count_push_status new <=
     if bool_decide (previous_component_status self = component_status self)
     then 0 else 1)%nat.
Proof.
  intros out. subst out. unfold push_status.
  destruct (component_id self) as [cid|] eqn:Hcid; io_unfold.
  2: { split_and!; try done. exists []. rewrite app_nil_r.
       split; [done|]. count_bound. }
  case_bool_decide as Hsame; io_unfold.
  { destruct logger; simpl; split_and!; try done.
    all: eexists;
      (split; [reflexivity || symmetry; apply app_nil_r|]); count_bound. }
  destruct (trigger_update self); simpl.
  2: { split_and!; try done. exists []. rewrite app_nil_r.
       split; [done|]. count_bound. }
  case_bool_decide; simpl.
  { split_and!; try done. eexists; split; [reflexivity|]. count_bound. }
  destruct (ok _), logger; simpl; split_and!; try done.
  all: eexists; split; [rewrite <- ?app_assoc; reflexivity|].
  all: count_bound.
Qed.

(** *** Evaluation and damping *)

Lemma static_fields_eq (a b : Expectation) :
  static_fields a = static_fields b ->
  kind a = kind b /\ incident_status a = incident_status b /\
  component_id a = component_id b /\ allowed_fails a = allowed_fails b.
Proof. unfold static_fields. intros [= -> -> -> _ _ ->]. done. Qed.

Lemma get_status_static (a b : Expectation) (response : Response) :
  static_fields a = static_fields b ->
  get_status a response = get_status b response.
Proof.
  intros H. apply static_fields_eq in H as (Hk & Hi & _ & _).
  unfold get_status. rewrite Hk, Hi. reflexivity.
Qed.

Lemma evaluate_fields (self : Expectation) (response : Response) :
  component_id self <> None ->
  static_fields (evaluate self response) = static_fields self /\
  component_status (evaluate self response) = get_status self response /\
  previous_component_status (evaluate self response)
    = component_status self /\
  current_fails (evaluate self response) = current_fails self /\
  trigger_update (evaluate self response) = trigger_update self /\
  incident_id (evaluate self response) = incident_id self.
Proof.
  intros Hcid. unfold evaluate, update_component_status.
  destruct (component_id self) eqn:Hc; [|done]. simpl.
  unfold static_fields. simpl. rewrite Hc. done.
Qed.

Lemma if_trigger_update_eq (self : Expectation) (allowed_fails_arg : Z)
    (logger : option Logger) (h : list Event) :
  component_id self <> None ->
  let threshold := default allowed_fails_arg (allowed_fails self) in
  let failed := set_current_fails (current_fails self + 1) self in
  let warned :=
    (h ++ match logger with
          | Some _ =>
              [LogWarning
                 ("Failure #" +:+ pretty (current_fails self + 1)
                    +:+ " with threshold set to " +:+ pretty threshold)]
          | None => []
          end)%list in
  if_trigger_update self allowed_fails_arg logger h =
    if bool_decide (component_status self ≠ OPERATIONAL) then
      if current_fails self + 1 <=? threshold
      then (set_trigger_update false failed, warned)
      else (set_trigger_update true (set_current_fails 0 self), warned)
    else (set_trigger_update true (set_current_fails 0 self), h).
Proof.
  intros Hcid. unfold if_trigger_update.
  destruct (component_id self); [|done].
  destruct (allowed_fails self) as [own|]; simpl;
    case_bool_decide; io_unfold; try reflexivity.
  all: destruct logger; simpl; rewrite ?app_nil_r;
    destruct (_ <=? _); reflexivity.
Qed.

Lemma if_trigger_update_fields (self : Expectation) (allowed_fails_arg : Z)
    (logger : option Logger) (h : list Event) :
  let out := if_trigger_update self allowed_fails_arg logger h in
  static_fields out.1 = static_fields self /\
  component_status out.1 = component_status self /\
  previous_component_status out.1 = previous_component_status self /\
  incident_id out.1 = incident_id self /\
  exists new, out.2 = (h ++ new)%list /\ external_calls new = [].
Proof.
  intros out. subst out.
  destruct (component_id self) as [cid|] eqn:Hcid.
  - rewrite if_trigger_update_eq by congruence.
    case_bool_decide; [destruct (_ <=? _)|]; simpl.
    1,2: split_and!; try done; destruct logger; eexists;
      (split; [reflexivity|]); reflexivity.
    split_and!; try done. exists []. rewrite app_nil_r. done.
  - unfold if_trigger_update. rewrite Hcid. io_unfold.
    split_and!; try done. exists []. rewrite app_nil_r. done.
Qed.

(** *** Probe cycles *)

Lemma cycle_fields (args : CycleArgs) (self : Expectation)
    (response : Response) (h : list Event) :
  component_id self <> None ->
  let out := cycle args self response h in
  out.1.1 = (if_trigger_update (evaluate self response)
               (cy_allowed_fails args) (cy_logger args) h).1 /\
  static_fields out.1.1 = static_fields self /\
  static_fields out.1.2 = static_fields self /\
  component_status out.1.1 = get_status self response /\
  previous_component_status out.1.1 = component_status self /\
  component_status out.1.2 = get_status self response /\
  current_fails out.1.2 = current_fails out.1.1 /\
  exists new,
    out.2 = (h ++ new)%list /\
    (count_push_status new <=
     if bool_decide (component_status self = get_status self response)
     then 0 else 1)%nat.
Proof.
  intros Hcid out. subst out. unfold cycle, bind.
  pose proof (evaluate_fields self response Hcid)
    as (Hes & Hec & Hep & Hef & _ & _).
  pose proof (if_trigger_update_fields (evaluate self response)
                (cy_allowed_fails args) (cy_logger args) h) as Hd.
  destruct (if_trigger_update (evaluate self response)
              (cy_allowed_fails args) (cy_logger args) h)
    as [damped h1] eqn:Hdamp.
  simpl in Hd. destruct Hd as (Hds & Hdc & Hdp & _ & new1 & -> & Hn1).
  pose proof (push_status_fields damped (cy_client args) (cy_logger args)
                (h ++ new1)%list) as Hp.
  destruct (push_status damped (cy_client args) (cy_logger args)
              (h ++ new1)%list) as [pushed h2] eqn:Hpush.
  simpl in Hp. destruct Hp as (Hps & Hpc & Hpf & _ & _ & new2 & -> & Hn2).
  pose proof (push_incident_fields pushed (cy_client args)
                (cy_public_incidents args) (cy_endpoint_name args)
                (cy_incident_title args) (cy_webhooks args) (cy_logger args)
                ((h ++ new1) ++ new2)%list) as Hi.
  destruct (push_incident pushed (cy_client args)
              (cy_public_incidents args) (cy_endpoint_name args)
              (cy_incident_title args) (cy_webhooks args) (cy_logger args)
              ((h ++ new1) ++ new2)%list) as [final h3] eqn:Hinc.
  simpl in Hi. destruct Hi as (His & Hic & _ & Hif & _ & new3 & -> & Hn3).
  unfold ret. simpl. split_and!; try congruence.
  exists (new1 ++ new2 ++ new3)%list. split; [by rewrite <- !app_assoc|].
  rewrite !count_push_status_app, Hn3.
  rewrite <- (count_push_status_external new1), Hn1.
  rewrite Hdp, Hdc, Hep, Hec in Hn2.
  change (count_push_status []) with 0%nat. lia.
Qed.

Lemma cycle_damping (args : CycleArgs) (self : Expectation)
    (response : Response) (h : list Event) :
  component_id self <> None ->
  get_status self response <> OPERATIONAL ->
  let threshold := default (cy_allowed_fails args) (allowed_fails self) in
  let out := cycle args self response h in
  trigger_update out.1.1 = negb (current_fails self + 1 <=? threshold) /\
  current_fails out.1.2 =
    (if current_fails self + 1 <=? threshold
     then current_fails self + 1 else 0).
Proof.
  intros Hcid Hst threshold out.
  destruct (cycle_fields args self response h Hcid)
    as (Hd & _ & _ & _ & _ & _ & Hf & _).
  fold out in Hd, Hf. rewrite Hf, Hd. clear Hd Hf.
  destruct (evaluate_fields self response Hcid)
    as (Hes & Hec & _ & Hef & _ & _).
  apply static_fields_eq in Hes as (_ & _ & Hc & Ha).
  rewrite if_trigger_update_eq by congruence.
  rewrite Hec, Hef, Ha, bool_decide_true by assumption.
  fold threshold. destruct (_ <=? _); done.
Qed.

Lemma last_cons_default {A} (x : A) (l : list A) (d1 d2 : A) :
  List.last (x :: l) d1 = List.last (x :: l) d2.
Proof.
  revert x. induction l as [|y l IH]; intros x; [reflexivity|].
  change (List.last (y :: l) d1 = List.last (y :: l) d2). apply IH.
Qed.

Lemma run_cycles_fields (args : CycleArgs) (responses : list Response) :
  forall (self : Expectation) (h : list Event),
  component_id self <> None ->
  let out := run_cycles args self responses h in
  let statuses := map (get_status self) responses in
  static_fields out.1.2 = static_fields self /\
  component_status out.1.2 = List.last statuses (component_status self) /\
  map component_status out.1.1 = statuses /\
  map previous_component_status out.1.1
    = take (length responses) (component_status self :: statuses) /\
  exists new,
    out.2 = (h ++ new)%list /\
    (count_push_status new
     <= status_changes (component_status self) statuses)%nat.
Proof.
  induction responses as [|response rest IH]; intros self h Hcid.
  - simpl. unfold ret. simpl. split_and!; try done.
    exists []. rewrite app_nil_r. done.
  - simpl. unfold bind.
    pose proof (cycle_fields args self response h Hcid) as Hc.
    destruct (cycle args self response h) as [[damped final] h1] eqn:Hcy.
    simpl in Hc.
    destruct Hc as (_ & _ & Hfs & Hdc & Hdp & Hfc & _ & new1 & -> & Hn1).
    assert (Hfcid : component_id final <> None).
    { apply static_fields_eq in Hfs as (_ & _ & -> & _). exact Hcid. }
    pose proof (IH final (h ++ new1)%list Hfcid) as Hr.
    destruct (run_cycles args final rest (h ++ new1)%list)
      as [[snaps last_state] h2] eqn:Hrun.
    simpl in Hr. destruct Hr as (Hls & Hlc & Hsc & Hsp & new2 & -> & Hn2).
    assert (Hgs : map (get_status final) rest = map (get_status self) rest).
    { apply map_ext. intros r. apply get_status_static. exact Hfs. }
    rewrite Hgs, Hfc in *. unfold ret. simpl. rewrite Hrun. simpl.
    split_and!.
    + congruence.
    + rewrite Hlc. destruct (map (get_status self) rest); [reflexivity|].
      apply last_cons_default.
    + congruence.
    + rewrite Hdp, Hsp. reflexivity.
    + exists (new1 ++ new2)%list. split; [by rewrite <- app_assoc|].
      rewrite count_push_status_app. lia.
Qed.

(** C3.  For a bound expectation and the effective threshold (its own
    [allowed_fails] when set, else the caller's), [if_trigger_update] on a
    status that is not OPERATIONAL increments [current_fails] and, when the
    new count is within the threshold, sets [trigger_update] to false and
    changes nothing else; otherwise (status OPERATIONAL, or count beyond the
    threshold) it resets [current_fails] to 0 and sets [trigger_update] to
    true.  It calls neither the backend nor a webhook.  With
    [allowed_fails] 2 and no failure counted yet, three cycles in a row whose
    classification is not OPERATIONAL give [trigger_update] false, false,
    true. *)
Theorem if_trigger_update_spec (self : Expectation) (allowed_fails_arg : Z)
    (logger : option Logger) (h : list Event) :
  component_id self <> None ->
  let threshold := default allowed_fails_arg (allowed_fails self) in
  let out := if_trigger_update self allowed_fails_arg logger h in
  (component_status self <> OPERATIONAL ->
   current_fails self + 1 <= threshold ->
     out.1 = set_trigger_update false
               (set_current_fails (current_fails self + 1) self)) /\
  (component_status self = OPERATIONAL
   \/ threshold < current_fails self + 1 ->
     out.1 = set_trigger_update true (set_current_fails 0 self)) /\
  external_calls out.2 = external_calls h /\
  (forall (args : CycleArgs) (r1 r2 r3 : Response),
     allowed_fails self = Some 2 -> current_fails self = 0 ->
     get_status self r1 <> OPERATIONAL ->
     get_status self r2 <> OPERATIONAL ->
     get_status self r3 <> OPERATIONAL ->
     map trigger_update (run_cycles args self [r1; r2; r3] h).1.1
       = [false; false; true]).
Proof.
  intros Hcid threshold out. subst out.
  rewrite if_trigger_update_eq by assumption. fold threshold.
  split_and!.
  - intros Hst Hle. rewrite bool_decide_true by assumption.
    apply Z.leb_le in Hle. rewrite Hle. reflexivity.
  - intros [Hst|Hgt].
    + rewrite bool_decide_false by (intros Hne; apply Hne, Hst). reflexivity.
    + apply Z.leb_gt in Hgt. rewrite Hgt. case_bool_decide; reflexivity.
  - case_bool_decide; [|reflexivity].
    destruct (_ <=? _), logger; simpl; rewrite ?app_nil_r;
      rewrite ?external_calls_app; simpl; rewrite ?app_nil_r; reflexivity.
  - intros args r1 r2 r3 Hown Hzero H1 H2 H3. simpl. unfold bind.
    pose proof (cycle_fields args self r1 h Hcid) as (_ & _ & Hs1 & _).
    pose proof (cycle_damping args self r1 h Hcid H1) as [Ht1 Hf1].
    destruct (cycle args self r1 h) as [[d1 f1] h1]. simpl in *.
    pose proof (static_fields_eq _ _ Hs1) as (_ & _ & Hc1 & Ha1).
    assert (Hcid1 : component_id f1 <> None) by congruence.
    assert (H21 : get_status f1 r2 <> OPERATIONAL)
      by (rewrite (get_status_static f1 self) by assumption; assumption).
    pose proof (cycle_fields args f1 r2 h1 Hcid1) as (_ & _ & Hs2 & _).
    pose proof (cycle_damping args f1 r2 h1 Hcid1 H21) as [Ht2 Hf2].
    destruct (cycle args f1 r2 h1) as [[d2 f2] h2]. simpl in *.
    pose proof (static_fields_eq _ _ Hs2) as (_ & _ & Hc2 & Ha2).
    assert (Hcid2 : component_id f2 <> None) by congruence.
    assert (H32 : get_status f2 r3 <> OPERATIONAL).
    { rewrite (get_status_static f2 f1), (get_status_static f1 self)
        by assumption. assumption. }
    pose proof (cycle_damping args f2 r3 h2 Hcid2 H32) as [Ht3 _].
    destruct (cycle args f2 r3 h2) as [[d3 f3] h3]. simpl in *.
    unfold ret. simpl.
    rewrite Ht1, Ht2, Ht3, Ha2, Hf2, Ha1, Hf1, Hown, Hzero. reflexivity.
Qed.

(** *** Redundant pushes *)

Lemma status_changes_constant (s : ComponentStatus)
    (statuses : list ComponentStatus) :
  Forall (fun x => x = s) statuses ->
  forall previous,
    (status_changes previous statuses
     <= if bool_decide (previous = s) then 0 else 1)%nat.
Proof.
  induction 1 as [|x l -> _ IH]; intros previous; simpl.
  - case_bool_decide; lia.
  - specialize (IH s). rewrite bool_decide_true in IH by reflexivity. lia.
Qed.

(** C5.  For a bound expectation whose [previous_component_status] equals
    its [component_status], [push_status] makes no call on the backend and
    sets [trigger_update] to false.  Over any sequence of cycles the number
    of status pushes sent to the backend is at most the number of cycles
    whose classification differs from the status before them; so while the
    classification stays the same at most one push is sent, and none when
    it is the status the expectation already had. *)
Theorem push_status_idempotent (self : Expectation) (h : list Event) :
  component_id self <> None ->
  (forall client logger,
     previous_component_status self = component_status self ->
     let out := push_status self client logger h in
     out.1 = set_trigger_update false self /\
     trigger_update out.1 = false /\
     exists new, out.2 = (h ++ new)%list /\ external_calls new = []) /\
  (forall args responses,
     exists new,
       (run_cycles args self responses h).2 = (h ++ new)%list /\
       (count_push_status new
        <= status_changes (component_status self)
             (map (get_status self) responses))%nat) /\
  (forall args responses s,
     (forall r, r ∈ responses -> get_status self r = s) ->
     exists new,
       (run_cycles args self responses h).2 = (h ++ new)%list /\
       (count_push_status new <= 1)%nat /\
       (component_status self = s -> count_push_status new = 0%nat)).
Proof.
  intros Hcid. split_and!.
  - intros client logger Hsame out. subst out.
    rewrite push_status_unchanged by assumption. simpl.
    split_and!; try done. eexists. split; [reflexivity|].
    destruct logger; reflexivity.
  - intros args responses.
    destruct (run_cycles_fields args responses self h Hcid)
      as (_ & _ & _ & _ & Hnew). exact Hnew.
  - intros args responses s Hall.
    destruct (run_cycles_fields args responses self h Hcid)
      as (_ & _ & _ & _ & new & Heq & Hn).
    exists new. split; [exact Heq|].
    assert (Hconst : Forall (fun x => x = s)
                       (map (get_status self) responses)).
    { clear Heq Hn. induction responses as [|r rest IH]; simpl;
        constructor.
      - apply Hall. left.
      - apply IH. intros r' Hr'. apply Hall. right. exact Hr'. }
    pose proof (status_changes_constant s _ Hconst (component_status self))
      as Hc.
    split.
    + case_bool_decide; lia.
    + intros Hs. rewrite bool_decide_true in Hc by assumption. lia.
Qed.

(** C1 (as amended).  For a bound expectation and any sequence of probe
    cycles, when [push_status] makes its redundancy check in a cycle,
    [previous_component_status] is the status the expectation had at the end
    of the cycle before (at construction for the first cycle) and
    [component_status] is the classification of the current cycle.  The
    damping decision and [push_incident] leave [previous_component_status]
    unchanged; besides the evaluate step, [push_status] assigns it too: after
    [push_status] it equals [component_status]. *)
Theorem previous_status_at_check (args : CycleArgs) (self : Expectation)
    (responses : list Response) (h : list Event) :
  component_id self <> None ->
  let out := run_cycles args self responses h in
  let statuses := map (get_status self) responses in
  map previous_component_status out.1.1
    = take (length responses) (component_status self :: statuses) /\
  map component_status out.1.1 = statuses /\
  (forall r, previous_component_status (evaluate self r)
             = component_status self) /\
  (forall t logger h',
     previous_component_status (if_trigger_update self t logger h').1
     = previous_component_status self) /\
  (forall client logger h',
     previous_component_status (push_status self client logger h').1
     = component_status self) /\
  (forall client public_incidents endpoint_name incident_title webhooks
          logger h',
     previous_component_status
       (push_incident self client public_incidents endpoint_name
          incident_title webhooks logger h').1
     = previous_component_status self).
Proof.
  intros Hcid out statuses. subst out statuses.
  destruct (run_cycles_fields args responses self h Hcid)
    as (_ & _ & Hc & Hp & _).
  split_and!; try assumption.
  - intros r. apply evaluate_fields. exact Hcid.
  - intros t logger h'. apply if_trigger_update_fields.
  - intros client logger h'.
    apply (push_status_fields self client logger h'). exact Hcid.
  - intros. apply push_incident_fields.
Qed.

(** ** Further properties of the module *)

(** *** Unbound expectations *)

(** X1.  An expectation without [component_id] is inert: its constructor
    does not query the client, none of the lifecycle methods changes it or
    calls the client, a webhook or the logger, and any number of probe
    cycles leaves it and the trace as they were.  It reports no current
    status and is never independent. *)
Theorem unbound_expectation_is_inert (self : Expectation)
    (args : CycleArgs) (h : list Event) :
  component_id self = None ->
  (forall status response,
     update_component_status self status response = self) /\
  (forall t logger, if_trigger_update self t logger h = (self, h)) /\
  (forall client logger, push_status self client logger h = (self, h)) /\
  (forall endpoint_name incident_title webhooks logger,
     trigger_webhooks self endpoint_name incident_title webhooks logger h
     = (tt, h)) /\
  (forall client public_incidents endpoint_name incident_title webhooks
          logger,
     push_incident self client public_incidents endpoint_name incident_title
       webhooks logger h = (self, h)) /\
  (forall responses,
     run_cycles args self responses h
     = (map (fun _ => self) responses, self, h)) /\
  is_independent self = false /\
  get_current_status self = None /\
  (forall k configuration client,
     cfg_component_id configuration = None ->
     (Expectation_init k configuration client h).2 = h /\
     component_id (Expectation_init k configuration client h).1 = None).
Proof.
  intros Hcid.
  assert (Hupd : forall status response,
             update_component_status self status response = self).
  { intros. unfold update_component_status. rewrite Hcid. reflexivity. }
  assert (Hdamp : forall t logger h0,
             if_trigger_update self t logger h0 = (self, h0)).
  { intros. unfold if_trigger_update. rewrite Hcid. reflexivity. }
  assert (Hpush : forall client logger h0,
             push_status self client logger h0 = (self, h0)).
  { intros. unfold push_status. rewrite Hcid. reflexivity. }
  assert (Hinc : forall client public_incidents endpoint_name incident_title
                        webhooks logger h0,
             push_incident self client public_incidents endpoint_name
               incident_title webhooks logger h0 = (self, h0)).
  { intros. unfold push_incident. rewrite Hcid. reflexivity. }
  assert (Hcycle : forall response h0,
             cycle args self response h0 = (self, self, h0)).
  { intros response h0. unfold cycle, evaluate, bind, ret.
    rewrite Hupd, Hdamp, Hpush, Hinc. reflexivity. }
  split_and!; auto.
  - intros. unfold trigger_webhooks. rewrite Hcid. reflexivity.
  - intros responses. induction responses as [|response rest IH];
      [reflexivity|].
    simpl. unfold bind. rewrite Hcycle. simpl. rewrite IH. reflexivity.
  - unfold is_independent. rewrite Hcid. reflexivity.
  - unfold get_current_status. rewrite Hcid. reflexivity.
  - intros k configuration client Hnone. unfold Expectation_init.
    rewrite Hnone. split; reflexivity.
Qed.

(** *** Construction *)

(** X2.  [Expectation.create] reads the keys its class needs before anything
    else: a missing [type] is a [KeyError] on "type", and for a known type a
    missing [status_range], [threshold], [regex], [field] or [value] is the
    [KeyError] of that key ([field] is read before [value]); a pattern
    [re.compile] rejects is an error of the regular expression, and a range
    [parse_range] rejects is the error of [parse_range]. *)
Theorem create_missing_keys (configuration : Configuration)
    (client : CachetClient) (h : list Event) :
  (cfg_type configuration = None ->
     create configuration client h = Raise (KeyError "type")) /\
  (cfg_type configuration = Some "HTTP_STATUS" ->
     (cfg_status_range configuration = None ->
        create configuration client h = Raise (KeyError "status_range")) /\
     (forall range_string e,
        cfg_status_range configuration = Some range_string ->
        HttpStatus_parse_range range_string = Raise e ->
        create configuration client h = Raise e)) /\
  (cfg_type configuration = Some "LATENCY" ->
   cfg_threshold configuration = None ->
     create configuration client h = Raise (KeyError "threshold")) /\
  (cfg_type configuration = Some "REGEX" ->
     (cfg_regex configuration = None ->
        create configuration client h = Raise (KeyError "regex")) /\
     (forall pattern,
        cfg_regex configuration = Some pattern ->
        re_compile pattern = false ->
        create configuration client h = Raise (ReError pattern))) /\
  (cfg_type configuration = Some "JSON_CHECK" ->
     (cfg_field configuration = None ->
        create configuration client h = Raise (KeyError "field")) /\
     (cfg_field configuration <> None ->
      cfg_value configuration = None ->
        create configuration client h = Raise (KeyError "value"))).
Proof.
  unfold create. split_and!.
  - intros ->. reflexivity.
  - intros ->. change (expectations !! "HTTP_STATUS")
      with (Some HttpStatus_class). simpl. unfold HttpStatus_init. split.
    + intros ->. reflexivity.
    + intros range_string e -> ->. reflexivity.
  - intros -> Hnone. change (expectations !! "LATENCY")
      with (Some Latency_class). simpl. unfold Latency_init.
    rewrite Hnone. reflexivity.
  - intros ->. change (expectations !! "REGEX") with (Some Regex_class).
    simpl. unfold Regex_init. split.
    + intros ->. reflexivity.
    + intros pattern -> ->. reflexivity.
  - intros ->. change (expectations !! "JSON_CHECK")
      with (Some JsonFieldValueCheck_class).
    simpl. unfold JsonFieldValueCheck_init. split.
    + intros ->. reflexivity.
    + intros Hfield ->. destruct (cfg_field configuration); done.
Qed.

Lemma expectations_lookup_Some (type : string) (cls : ExpectationClass) :
  expectations !! type = Some cls ->
  (type = "HTTP_STATUS" /\ cls = HttpStatus_class)
  \/ (type = "LATENCY" /\ cls = Latency_class)
  \/ (type = "REGEX" /\ cls = Regex_class)
  \/ (type = "JSON_CHECK" /\ cls = JsonFieldValueCheck_class).
Proof.
  unfold expectations. rewrite !lookup_insert_Some, lookup_empty.
  intros [[<- <-]|[_ [[<- <-]|[_ [[<- <-]|[_ [[<- <-]|[_ ?]]]]]]]];
    try discriminate; auto 10.
Qed.

(** X3.  An expectation that [create] returns has the class its [type]
    names, with the attributes of that class read from the configuration
    (the parsed range, the threshold, the pattern, the field with its
    segments and the value).  Its [incident_status] is the entry of
    [INCIDENT_MAP] for the configured [incident] label, and the default of
    the class (PERFORMANCE_ISSUES for a latency check, PARTIAL_OUTAGE for the
    others) when there is no label or the label is not in the map. *)
Theorem create_resolves_class_and_incident (configuration : Configuration)
    (client : CachetClient) (h h' : list Event) (self : Expectation) :
  create configuration client h = Return (self, h') ->
  match kind self with
  | HttpStatus status_range =>
      cfg_type configuration = Some "HTTP_STATUS" /\
      exists range_string,
        cfg_status_range configuration = Some range_string /\
        HttpStatus_parse_range range_string = Return status_range
  | Latency threshold =>
      cfg_type configuration = Some "LATENCY" /\
      cfg_threshold configuration = Some threshold
  | Regex regex_string =>
      cfg_type configuration = Some "REGEX" /\
      cfg_regex configuration = Some regex_string /\
      re_compile regex_string = true
  | JsonFieldValueCheck field value all_fields =>
      cfg_type configuration = Some "JSON_CHECK" /\
      cfg_field configuration = Some field /\
      cfg_value configuration = Some value /\
      all_fields = str_split "." field
  end /\
  incident_status self =
    default (match kind self with
             | Latency _ => PERFORMANCE_ISSUES
             | _ => PARTIAL_OUTAGE
             end)
      (label ← cfg_incident configuration; INCIDENT_MAP !! label).
Proof.
  unfold create.
  destruct (cfg_type configuration) as [type|]; [|discriminate].
  destruct (expectations !! type) as [cls|] eqn:Hcls; [|discriminate].
  apply expectations_lookup_Some in Hcls
    as [[-> ->]|[[-> ->]|[[-> ->]|[-> ->]]]]; simpl.
  - intros Hinit. apply HttpStatus_init_Return in Hinit
      as (range_string & status_range & Hr & Hp & Hinit).
    pose proof (Expectation_init_static (HttpStatus status_range)
                  configuration client h) as (Hk & Hi & _).
    rewrite Hinit in Hk, Hi. simpl in Hk, Hi. rewrite Hk, Hi.
    split; [eauto|].
    unfold parse_incident_status. destruct (cfg_incident configuration); done.
  - unfold Latency_init.
    destruct (cfg_threshold configuration) as [threshold|]; [|discriminate].
    intros [= Hinit].
    pose proof (Expectation_init_static (Latency threshold)
                  configuration client h) as (Hk & Hi & _).
    rewrite Hinit in Hk, Hi. simpl in Hk, Hi. rewrite Hk, Hi.
    split; [done|].
    unfold parse_incident_status. destruct (cfg_incident configuration); done.
  - unfold Regex_init.
    destruct (cfg_regex configuration) as [pattern|]; [|discriminate].
    destruct (re_compile pattern) eqn:Hre; [|discriminate].
    intros [= Hinit].
    pose proof (Expectation_init_static (Regex pattern)
                  configuration client h) as (Hk & Hi & _).
    rewrite Hinit in Hk, Hi. simpl in Hk, Hi. rewrite Hk, Hi.
    split; [done|].
    unfold parse_incident_status. destruct (cfg_incident configuration); done.
  - unfold JsonFieldValueCheck_init.
    destruct (cfg_field configuration) as [field|]; [|discriminate].
    destruct (cfg_value configuration) as [value|]; [|discriminate].
    intros [= Hinit].
    pose proof (Expectation_init_static
                  (JsonFieldValueCheck field value (str_split "." field))
                  configuration client h) as (Hk & Hi & _).
    rewrite Hinit in Hk, Hi. simpl in Hk, Hi. rewrite Hk, Hi.
    split; [done|].
    unfold parse_incident_status. destruct (cfg_incident configuration); done.
Qed.

(** *** Status ranges *)

Lemma str_split_segments (sep : ascii) (s : string) :
  Forall (fun segment => str_contains sep segment = false) (str_split sep s).
Proof.
  drop_env.
  induction s as [|c s IH]; simpl; [repeat constructor|].
  destruct (Ascii.eqb c sep) eqn:Hc; [constructor; [reflexivity|exact IH]|].
  destruct (str_split sep s) as [|w ws].
  { constructor; [simpl; rewrite Hc; reflexivity|constructor]. }
  inversion IH as [|? ? Hw Hws]; subst.
  constructor; [|exact Hws]. simpl. rewrite Hc, Hw. reflexivity.
Qed.

(** X4.  A range given as a string cannot have a negative bound: the dash is
    the separator, so no segment carries the minus sign [int] needs for a
    negative number, and both numbers [parse_range] returns for a string are
    at least 0. *)
Theorem parse_range_string_bounds (s : string) (lower upper : Z) :
  HttpStatus_parse_range (VStr s) = Return (lower, upper) ->
  0 <= lower /\ 0 <= upper.
Proof.
  assert (Hsign : forall p n,
             str_contains "-" p = false ->
             int_str python_int p = Some n -> 0 <= n).
  { intros p n Hp Hn. destruct (Z.lt_ge_cases n 0) as [Hneg|Hpos]; [|lia].
    pose proof (int_str_negative python_int p n Hn Hneg). congruence. }
  pose proof (str_split_segments "-" s) as Hseg.
  destruct (str_split "-" s) as [|p [|q rest]] eqn:Hs.
  - exfalso. eapply str_split_nonempty, Hs.
  - rewrite (parse_range_single s p Hs).
    inversion Hseg as [|? ? Hp _]; subst.
    destruct (int_str python_int p) as [n|] eqn:Hn; [|discriminate].
    intros [= <- <-]. pose proof (Hsign p n Hp Hn). lia.
  - rewrite (parse_range_pair s p q rest Hs).
    inversion Hseg as [|? ? Hp Hseg']; subst.
    inversion Hseg' as [|? ? Hq _]; subst.
    destruct (int_str python_int p) as [lo|] eqn:Hlo; [|discriminate].
    destruct (int_str python_int q) as [hi|] eqn:Hhi; [|discriminate].
    intros [= <- <-].
    split; [exact (Hsign p lo Hp Hlo)|exact (Hsign q hi Hq Hhi)].
Qed.

(** X5.  [parse_range] does not compare the two bounds, and an
    [HttpStatus] expectation whose upper bound is not above its lower bound
    classifies no status code as OPERATIONAL: every response gets the
    incident status. *)
Theorem HttpStatus_empty_range (self : Expectation) (lower upper : Z)
    (response : Response) :
  kind self = HttpStatus (lower, upper) ->
  upper <= lower ->
  get_status self response = incident_status self.
Proof.
  intros Hk Hle. unfold get_status. rewrite Hk.
  rewrite HttpStatus_get_status_in_range.
  rewrite bool_decide_false by lia. reflexivity.
Qed.

(** X6.  An [HttpStatus] expectation built from a [status_range] that is a
    single integer [n] accepts the code [n] and no other: a response is
    OPERATIONAL when its status code is [n] and gets the incident status
    otherwise. *)
Theorem HttpStatus_single_code (configuration : Configuration)
    (client : CachetClient) (h h' : list Event) (self : Expectation)
    (n : Z) (response : Response) :
  cfg_status_range configuration = Some (VInt n) ->
  HttpStatus_init configuration client h = Return (self, h') ->
  get_status self response =
    if bool_decide (status_code response = n)
    then OPERATIONAL else incident_status self.
Proof.
  intros Hrange Hinit.
  apply HttpStatus_init_Return in Hinit
    as (range_string & status_range & Hr & Hp & Hinit).
  rewrite Hrange in Hr. injection Hr as <-. simpl in Hp.
  injection Hp as <-.
  pose proof (Expectation_init_static (HttpStatus (n, n + 1))
                configuration client h) as (Hk & _).
  rewrite Hinit in Hk. simpl in Hk.
  unfold get_status. rewrite Hk, HttpStatus_get_status_in_range.
  repeat case_bool_decide; try reflexivity; lia.
Qed.

(** *** Lifecycle methods, one at a time *)

Lemma push_status_outcome (self : Expectation) (client : CachetClient)
    (logger : option Logger) (h : list Event) (cid : Z) :
  component_id self = Some cid ->
  let out := push_status self client logger h in
  out.1 =
    (if bool_decide (previous_component_status self = component_status self)
     then set_trigger_update false self
     else set_previous_component_status (component_status self) self) /\
  exists new,
    out.2 = (h ++ new)%list /\
    external_calls new =
      if bool_decide (previous_component_status self = component_status self)
         || negb (trigger_update self)
      then []
      else GetComponentStatus cid
           :: (if bool_decide
                    (component_status self
                     = get_component_status client h cid)
               then []
               else [PushStatus cid (component_status self)]).
Proof.
  intros Hcid out. subst out. unfold push_status. rewrite Hcid.
  case_bool_decide as Hsame; io_unfold.
  { destruct logger; simpl; (split; [reflexivity|]); eexists;
      (split; [reflexivity || symmetry; apply app_nil_r|]); reflexivity. }
  destruct (trigger_update self); simpl.
  2: { split; [reflexivity|]. exists []. rewrite app_nil_r. done. }
  case_bool_decide; simpl.
  { split; [reflexivity|]. eexists. split; reflexivity. }
  destruct (ok _), logger; simpl; (split; [reflexivity|]).
  all: eexists; split; [rewrite <- ?app_assoc; reflexivity|reflexivity].
Qed.

(** X7.  [push_status] on a bound expectation: what it leaves in the
    expectation does not depend on anything the backend answers (it clears
    [trigger_update] when the status is unchanged and records the status as
    the previous one otherwise).  It calls the backend only when the status
    changed and [trigger_update] is set; it then first asks for the status
    the backend has, and writes the new status only when the two differ. *)
Theorem push_status_calls (self : Expectation) (client : CachetClient)
    (logger : option Logger) (h : list Event) (cid : Z) :
  component_id self = Some cid ->
  let out := push_status self client logger h in
  out.1 =
    (if bool_decide (previous_component_status self = component_status self)
     then set_trigger_update false self
     else set_previous_component_status (component_status self) self) /\
  exists new,
    out.2 = (h ++ new)%list /\
    external_calls new =
      if bool_decide (previous_component_status self = component_status self)
         || negb (trigger_update self)
      then []
      else GetComponentStatus cid
           :: (if bool_decide
                    (component_status self
                     = get_component_status client h cid)
               then []
               else [PushStatus cid (component_status self)]).
Proof. exact (push_status_outcome self client logger h cid). Qed.

Lemma push_incident_outcome (self : Expectation)
    (client : CachetClient) (public_incidents : bool)
    (endpoint_name incident_title : string) (webhooks : list Webhook)
    (logger : option Logger) (h : list Event) (cid : Z) :
  component_id self = Some cid ->
  trigger_update self = true ->
  let out :=
    push_incident self client public_incidents endpoint_name incident_title
      webhooks logger h in
  ((forall status public component title previous body,
      ok (client_push_incident client h status public component title
            previous body) = true) ->
   (incident_id out.1 <> None <-> component_status self <> OPERATIONAL)) /\
  ((forall status public component title previous body,
      ok (client_push_incident client h status public component title
            previous body) = false) ->
   out.1 = self).
Proof.
  intros Hcid Htrig out. subst out.
  destruct (incident_id self) as [iid|] eqn:Hinc;
    destruct (decide (component_status self = OPERATIONAL)) as [Hst|Hst].
  - destruct (push_incident_recovery self client public_incidents
                endpoint_name incident_title webhooks logger h cid iid
                Hcid Htrig Hinc Hst) as (new & -> & _).
    simpl. split; intros Hok; rewrite Hok; [|reflexivity].
    simpl. split; [done|]. intros Hne. exfalso. apply Hne, Hst.
  - rewrite push_incident_idle
      by (right; right; left; split; congruence).
    simpl. rewrite Hinc. split; [|done]. intros _. split; done.
  - rewrite push_incident_idle by auto.
    simpl. rewrite Hinc. split; [|done]. intros _. split; [done|].
    intros Hne. exfalso. apply Hne, Hst.
  - destruct (push_incident_onset self client public_incidents
                endpoint_name incident_title webhooks logger h cid
                Hcid Htrig Hinc Hst) as (new & -> & _).
    simpl. split; intros Hok; rewrite Hok; [|reflexivity].
    simpl. split; done.
Qed.

(** X8.  [push_incident] on a bound expectation with [trigger_update] set:
    when the backend accepts the calls it is sent, an incident is open
    afterwards exactly when the status is not OPERATIONAL; when the backend
    refuses them, the expectation is left as it was, so that the same edge
    is taken again by the next triggered call. *)
Theorem push_incident_tracks_status (self : Expectation)
    (client : CachetClient) (public_incidents : bool)
    (endpoint_name incident_title : string) (webhooks : list Webhook)
    (logger : option Logger) (h : list Event) (cid : Z) :
  component_id self = Some cid ->
  trigger_update self = true ->
  let out :=
    push_incident self client public_incidents endpoint_name incident_title
      webhooks logger h in
  ((forall status public component title previous body,
      ok (client_push_incident client h status public component title
            previous body) = true) ->
   (incident_id out.1 <> None <-> component_status self <> OPERATIONAL)) /\
  ((forall status public component title previous body,
      ok (client_push_incident client h status public component title
            previous body) = false) ->
   out.1 = self).
Proof. exact (push_incident_outcome self client public_incidents endpoint_name incident_title webhooks logger h cid). Qed.

(** X14.  [JsonFieldValueCheck.get_status] on a body that parses to anything
    but a mapping (a list, a string, a number, a boolean, null): the result
    is the incident status whatever the field and the expected value are,
    [None] included. *)
Theorem JsonFieldValueCheck_non_mapping (self : Expectation) (field : string)
    (value : PyVal) (all_fields : list string) (response : Response)
    (doc : PyVal) :
  kind self = JsonFieldValueCheck field value all_fields ->
  json_loads (text response) = Some doc ->
  match doc with
  | VDict _ => True
  | _ => get_status self response = incident_status self
  end.
Proof.
  intros Hk Hdoc. unfold get_status. rewrite Hk.
  unfold JsonFieldValueCheck_get_status, JsonFieldValueCheck_lookup.
  rewrite Hdoc. simpl.
  destruct doc; try exact I.
  all: destruct (take (length all_fields - 1)%nat all_fields) as [|s0 rest];
    simpl; [|reflexivity].
  all: destruct (last all_fields); reflexivity.
Qed.

(** X15.  After any number of probe cycles on a bound expectation, the
    status it reports through [get_current_status] is the classification of
    the last response (the status it had when no cycle ran), whatever the
    backend and the webhooks answered, and [is_independent] is what it was
    before. *)
Theorem run_cycles_current_status (args : CycleArgs) (self : Expectation)
    (responses : list Response) (h : list Event) :
  component_id self <> None ->
  let final := (run_cycles args self responses h).1.2 in
  get_current_status final
  = Some (List.last (map (get_status self) responses)
            (component_status self)) /\
  is_independent final = is_independent self.
Proof.
  intros Hcid final. subst final.
  destruct (run_cycles_fields args responses self h Hcid)
    as (Hs & Hc & _).
  unfold get_current_status, is_independent, static_fields in *.
  injection Hs as _ _ Hid Hind _ _.
  rewrite Hid, Hind, Hc.
  destruct (component_id self); done.
Qed.

(** *** Damping over cycles *)

Lemma cycle_counter (args : CycleArgs) (self : Expectation)
    (response : Response) (h : list Event) :
  component_id self <> None ->
  let threshold := default (cy_allowed_fails args) (allowed_fails self) in
  let out := cycle args self response h in
  let suppressed :=
    bool_decide (get_status self response ≠ OPERATIONAL)
    && (current_fails self + 1 <=? threshold) in
  current_fails out.1.1
    = (if suppressed then current_fails self + 1 else 0) /\
  trigger_update out.1.1 = negb suppressed /\
  current_fails out.1.2 = current_fails out.1.1 /\
  incident_id out.1.1 = incident_id self.
Proof.
  intros Hcid threshold out suppressed.
  destruct (cycle_fields args self response h Hcid)
    as (Hd & _ & _ & _ & _ & _ & Hf & _).
  fold out in Hd, Hf. rewrite Hf, Hd. clear Hd Hf.
  destruct (evaluate_fields self response Hcid)
    as (Hes & Hec & _ & Hef & _ & Hei).
  apply static_fields_eq in Hes as (_ & _ & Hc & Ha).
  rewrite if_trigger_update_eq by congruence.
  rewrite Hec, Hef, Ha. fold threshold. subst suppressed.
  case_bool_decide; simpl; [destruct (_ <=? _)|]; simpl; auto.
Qed.

(** X9.  The failure counter of a bound expectation that starts between 0
    and the effective threshold (as it does after construction) stays there
    over any sequence of cycles, and each time the damping decision has run,
    [trigger_update] is true exactly when the counter is 0. *)
Theorem damping_counter_invariant (args : CycleArgs) (self : Expectation)
    (responses : list Response) (h : list Event) :
  component_id self <> None ->
  let threshold := default (cy_allowed_fails args) (allowed_fails self) in
  0 <= current_fails self <= Z.max 0 threshold ->
  let out := run_cycles args self responses h in
  Forall (fun damped =>
            0 <= current_fails damped <= Z.max 0 threshold /\
            (trigger_update damped = true <-> current_fails damped = 0))
    out.1.1 /\
  0 <= current_fails out.1.2 <= Z.max 0 threshold.
Proof.
  intros Hcid threshold Hcf out. subst out.
  revert self h Hcid threshold Hcf.
  induction responses as [|response rest IH]; intros self h Hcid threshold Hcf.
  - simpl. unfold ret. simpl. split; [constructor|exact Hcf].
  - simpl. unfold bind.
    pose proof (cycle_fields args self response h Hcid)
      as (_ & _ & Hfs & _).
    pose proof (cycle_counter args self response h Hcid)
      as (Hdc & Hdt & Hfc & _).
    destruct (cycle args self response h) as [[damped final] h1].
    simpl in *.
    pose proof (static_fields_eq _ _ Hfs) as (_ & _ & Hc & Ha).
    assert (Hstep : 0 <= current_fails damped <= Z.max 0 threshold /\
                    (trigger_update damped = true
                     <-> current_fails damped = 0)).
    { rewrite Hdc, Hdt. fold threshold.
      destruct (bool_decide _ && _) eqn:Hs; simpl.
      - apply andb_true_iff in Hs as [_ Hle]. apply Z.leb_le in Hle.
        split; [lia|]. split; [discriminate|lia].
      - split; [lia|]. split; reflexivity. }
    assert (Hcid' : component_id final <> None) by congruence.
    specialize (IH final h1 Hcid').
    rewrite Ha in IH. fold threshold in IH.
    assert (Hcf' : 0 <= current_fails final <= Z.max 0 threshold)
      by (rewrite Hfc; tauto).
    specialize (IH Hcf').
    destruct (run_cycles args final rest h1) as [[snaps last_state] h2].
    simpl in *. destruct IH as (Hall & Hlast). unfold ret. simpl.
    split; [constructor; assumption|exact Hlast].
Qed.

Lemma damping_step_mod (cf t : Z) :
  0 <= cf <= t ->
  (if cf + 1 <=? t then cf + 1 else 0) = (cf + 1) mod (t + 1).
Proof.
  intros Hcf. destruct (Z.leb_spec (cf + 1) t).
  - symmetry. apply Z.mod_small. lia.
  - assert (cf + 1 = t + 1) as -> by lia.
    symmetry. apply Z_mod_same_full.
Qed.

(** X10.  Consecutive failures are let through periodically.  For a bound
    expectation with effective threshold [t >= 0] and a failure counter
    between 0 and [t], over cycles that are all classified as not
    OPERATIONAL the counter after the damping decision of cycle [i]
    (counted from 0) is [(current_fails + i + 1) mod (t + 1)], and
    [trigger_update] is true exactly when that is 0: from a counter of 0,
    [t] failures are suppressed and the next one triggers. *)
Theorem damping_period (args : CycleArgs) (responses : list Response) :
  forall (self : Expectation) (h : list Event),
  component_id self <> None ->
  let threshold := default (cy_allowed_fails args) (allowed_fails self) in
  0 <= current_fails self <= threshold ->
  Forall (fun response => get_status self response <> OPERATIONAL)
    responses ->
  let snapshots := (run_cycles args self responses h).1.1 in
  let counter (i : nat) :=
    (current_fails self + Z.of_nat i + 1) mod (threshold + 1) in
  map current_fails snapshots = map counter (seq 0 (length responses)) /\
  map trigger_update snapshots
  = map (fun i => counter i =? 0) (seq 0 (length responses)).
Proof.
  induction responses as [|response rest IH];
    intros self h Hcid threshold Hcf Hfail snapshots counter;
    subst snapshots counter.
  - simpl. unfold ret. simpl. done.
  - inversion Hfail as [|? ? Hr Hrest]; subst.
    simpl. unfold bind.
    pose proof (cycle_fields args self response h Hcid)
      as (_ & _ & Hfs & _).
    pose proof (cycle_counter args self response h Hcid)
      as (Hdc & Hdt & Hfc & _).
    destruct (cycle args self response h) as [[damped final] h1].
    simpl in *. fold threshold in Hdc, Hdt.
    rewrite bool_decide_true in Hdc, Hdt by assumption. simpl in Hdc, Hdt.
    rewrite damping_step_mod in Hdc by assumption.
    pose proof (static_fields_eq _ _ Hfs) as (_ & _ & Hc & Ha).
    assert (Hcid' : component_id final <> None) by congruence.
    assert (Hrange : 0 <= (current_fails self + 1) mod (threshold + 1)
                       <= threshold).
    { pose proof (Z.mod_pos_bound (current_fails self + 1) (threshold + 1)).
      lia. }
    assert (Hfail' : Forall (fun r => get_status final r <> OPERATIONAL) rest).
    { eapply Forall_impl; [exact Hrest|]. intros r Hne.
      rewrite (get_status_static final self) by assumption. exact Hne. }
    specialize (IH final h1 Hcid'). simpl in IH.
    rewrite Ha, Hfc, Hdc in IH. fold threshold in IH.
    specialize (IH Hrange Hfail').
    destruct (run_cycles args final rest h1) as [[snaps last_state] h2].
    simpl in *. unfold ret. simpl. destruct IH as [IHc IHt].
    assert (Hshift : forall i : nat,
               ((current_fails self + 1) mod (threshold + 1)
                + Z.of_nat i + 1) mod (threshold + 1)
               = (current_fails self + Z.of_nat (S i) + 1)
                   mod (threshold + 1)).
    { intros i. rewrite Nat2Z.inj_succ.
      rewrite <- Z.add_assoc, Zplus_mod_idemp_l. f_equal. lia. }
    rewrite <- seq_shift, !map_map.
    split; f_equal.
    + rewrite Hdc. f_equal. lia.
    + rewrite IHc. apply map_ext. intros i. apply Hshift.
    + rewrite Hdt.
      replace (current_fails self + Z.of_nat 0 + 1)
        with (current_fails self + 1) by lia.
      destruct (Z.leb_spec (current_fails self + 1) threshold) as [Hle|Hgt].
      * rewrite Z.mod_small by lia. symmetry. apply Z.eqb_neq. lia.
      * assert (current_fails self + 1 = threshold + 1) as -> by lia.
        rewrite Z_mod_same_full. reflexivity.
    + rewrite IHt. apply map_ext. intros i. rewrite Hshift. reflexivity.
Qed.

(** *** What a cycle sends out *)

Lemma cycle_unfold (args : CycleArgs) (self : Expectation)
    (response : Response) (h : list Event) :
  cycle args self response h =
    let damped :=
      if_trigger_update (evaluate self response) (cy_allowed_fails args)
        (cy_logger args) h in
    let pushed :=
      push_status damped.1 (cy_client args) (cy_logger args) damped.2 in
    let final :=
      push_incident pushed.1 (cy_client args) (cy_public_incidents args)
        (cy_endpoint_name args) (cy_incident_title args) (cy_webhooks args)
        (cy_logger args) pushed.2 in
    (damped.1, final.1, final.2).
Proof.
  unfold cycle, bind, ret.
  destruct (if_trigger_update _ _ _ _) as [damped h1]. simpl.
  destruct (push_status _ _ _ _) as [pushed h2]. simpl.
  destruct (push_incident _ _ _ _ _ _ _ _) as [final h3]. reflexivity.
Qed.

Lemma damped_fields (args : CycleArgs) (self : Expectation)
    (response : Response) (h : list Event) (cid : Z) :
  component_id self = Some cid ->
  let threshold := default (cy_allowed_fails args) (allowed_fails self) in
  let damped :=
    if_trigger_update (evaluate self response) (cy_allowed_fails args)
      (cy_logger args) h in
  component_id damped.1 = Some cid /\
  component_status damped.1 = get_status self response /\
  previous_component_status damped.1 = component_status self /\
  incident_id damped.1 = incident_id self /\
  message damped.1 = get_message self response /\
  trigger_update damped.1
  = negb (bool_decide (get_status self response ≠ OPERATIONAL)
          && (current_fails self + 1 <=? threshold)) /\
  exists new, damped.2 = (h ++ new)%list /\ external_calls new = [].
Proof.
  intros Hcid threshold damped.
  assert (Hbound : component_id self <> None) by congruence.
  destruct (evaluate_fields self response Hbound)
    as (Hes & Hec & Hep & Hef & _ & Hei).
  pose proof (static_fields_eq _ _ Hes) as (Hk & _ & Hc & Ha).
  assert (Hmsg : message (evaluate self response)
                 = get_message self response).
  { unfold evaluate, update_component_status. rewrite Hcid. reflexivity. }
  destruct (if_trigger_update_fields (evaluate self response)
              (cy_allowed_fails args) (cy_logger args) h)
    as (Hds & Hdc & Hdp & Hdi & Hnew).
  fold damped in Hds, Hdc, Hdp, Hdi, Hnew.
  pose proof (static_fields_eq _ _ Hds) as (_ & _ & Hc' & _).
  split_and!.
  - congruence.
  - congruence.
  - congruence.
  - congruence.
  - subst damped. rewrite if_trigger_update_eq by congruence.
    case_bool_decide; [destruct (_ <=? _)|]; simpl; exact Hmsg.
  - subst damped. rewrite if_trigger_update_eq by congruence.
    rewrite Hec, Hef, Ha. fold threshold.
    case_bool_decide; [destruct (_ <=? _)|]; reflexivity.
  - exact Hnew.
Qed.

Lemma quiet_cycle_outcome (args : CycleArgs) (self : Expectation)
    (response : Response) (h : list Event) :
  component_id self <> None ->
  let threshold := default (cy_allowed_fails args) (allowed_fails self) in
  get_status self response = component_status self
  \/ (get_status self response <> OPERATIONAL
      /\ current_fails self + 1 <= threshold) ->
  let out := cycle args self response h in
  (exists new, out.2 = (h ++ new)%list /\ external_calls new = []) /\
  incident_id out.1.2 = incident_id self /\
  trigger_update out.1.2 = false.
Proof.
  intros Hbound threshold Hquiet out. subst out.
  destruct (component_id self) as [cid|] eqn:Hcid; [clear Hbound|done].
  rewrite cycle_unfold. cbv zeta.
  destruct (damped_fields args self response h cid Hcid)
    as (Hdcid & Hdc & Hdp & Hdi & _ & Hdt & new1 & Hh1 & Hn1).
  fold threshold in Hdt.
  set (damped := if_trigger_update _ _ _ _) in *.
  destruct (push_status_outcome damped.1 (cy_client args) (cy_logger args)
              damped.2 cid Hdcid) as (Hp & new2 & Hh2 & Hn2).
  set (pushed := push_status _ _ _ _) in *.
  assert (Hcond : bool_decide (previous_component_status damped.1
                               = component_status damped.1)
                  || negb (trigger_update damped.1) = true).
  { rewrite Hdp, Hdc, Hdt. destruct Hquiet as [Hsame|[Hfail Hle]].
    - rewrite bool_decide_true by congruence. reflexivity.
    - apply Z.leb_le in Hle.
      rewrite (bool_decide_true (_ ≠ _)) by assumption. rewrite Hle.
      apply orb_true_r. }
  rewrite Hcond in Hn2.
  assert (Hpt : trigger_update pushed.1 = false
                /\ incident_id pushed.1 = incident_id self).
  { rewrite Hp. case_bool_decide as Hsame; simpl; [done|].
    simpl in Hcond. apply negb_true_iff in Hcond. done. }
  destruct Hpt as [Hpt Hpi].
  rewrite push_incident_idle by auto. simpl.
  split_and!; try assumption.
  exists (new1 ++ new2)%list. rewrite Hh2, Hh1, <- app_assoc.
  split; [reflexivity|]. rewrite external_calls_app, Hn1, Hn2. reflexivity.
Qed.

(** X11.  A cycle of a bound expectation reaches neither the backend nor a
    webhook when the classification is the status the expectation already
    had, and also when it is a failure that the damping decision keeps
    within the threshold.  Such a cycle leaves [trigger_update] false and the
    open incident, if any, as it was. *)
Theorem cycle_quiet (args : CycleArgs) (self : Expectation)
    (response : Response) (h : list Event) :
  component_id self <> None ->
  let threshold := default (cy_allowed_fails args) (allowed_fails self) in
  get_status self response = component_status self
  \/ (get_status self response <> OPERATIONAL
      /\ current_fails self + 1 <= threshold) ->
  let out := cycle args self response h in
  (exists new, out.2 = (h ++ new)%list /\ external_calls new = []) /\
  incident_id out.1.2 = incident_id self /\
  trigger_update out.1.2 = false.
Proof. exact (quiet_cycle_outcome args self response h). Qed.

(** X12.  While the classification stays the same nothing is reported.  If
    every response of a sequence of cycles gets the same classification,
    and the first cycle is quiet (the classification is the status the
    expectation already had, or it is a failure within the threshold), then
    the whole sequence reaches neither the backend nor a webhook and opens
    or closes no incident.  In particular an outage that begins while
    [allowed_fails] is 1 or more and keeps its classification is never
    pushed to the backend. *)
Theorem unchanged_classification_is_never_reported (args : CycleArgs)
    (responses : list Response) (s : ComponentStatus) :
  forall (self : Expectation) (h : list Event),
  component_id self <> None ->
  let threshold := default (cy_allowed_fails args) (allowed_fails self) in
  Forall (fun response => get_status self response = s) responses ->
  s = component_status self
  \/ (s <> OPERATIONAL /\ current_fails self + 1 <= threshold) ->
  let out := run_cycles args self responses h in
  (exists new, out.2 = (h ++ new)%list /\ external_calls new = []) /\
  incident_id out.1.2 = incident_id self.
Proof.
  induction responses as [|response rest IH];
    intros self h Hcid threshold Hall Hquiet out; subst out.
  - simpl. unfold ret. simpl. split; [|reflexivity].
    exists []. rewrite app_nil_r. done.
  - inversion Hall as [|? ? Hs Hrest]; subst.
    simpl. unfold bind.
    pose proof (cycle_fields args self response h Hcid)
      as (_ & _ & Hfs & _ & _ & Hfc & _).
    assert (Hq : get_status self response = component_status self
                 \/ (get_status self response <> OPERATIONAL
                     /\ current_fails self + 1 <= threshold))
      by (destruct Hquiet as [->|?]; auto).
    pose proof (quiet_cycle_outcome args self response h Hcid Hq)
      as ((new1 & Hh1 & Hn1) & Hi1 & _).
    destruct (cycle args self response h) as [[damped final] h1].
    simpl in *. subst h1.
    pose proof (static_fields_eq _ _ Hfs) as (_ & _ & Hc & _).
    assert (Hcid' : component_id final <> None) by congruence.
    assert (Hall' : Forall (fun r => get_status final r
                                     = get_status self response) rest).
    { eapply Forall_impl; [exact Hrest|]. intros r Hr.
      rewrite (get_status_static final self) by assumption. exact Hr. }
    specialize (IH final (h ++ new1)%list Hcid' Hall' (or_introl (eq_sym Hfc))).
    destruct (run_cycles args final rest (h ++ new1)%list)
      as [[snaps last_state] h2].
    simpl in *. destruct IH as ((new2 & -> & Hn2) & Hi2).
    unfold ret. simpl. split; [|congruence].
    exists (new1 ++ new2)%list. rewrite <- app_assoc.
    split; [reflexivity|]. rewrite external_calls_app, Hn1, Hn2. reflexivity.
Qed.

(** X13.  What a cycle of a bound expectation sends out when the
    classification differs from the status the expectation had and the
    damping decision lets it through (it is OPERATIONAL, or the failure
    count has passed the threshold).  It asks the backend for the status it
    has, writes the new status unless the backend already has it, and then
    takes the incident edge: with an incident open and the new status
    OPERATIONAL it updates that incident, with no incident open and a new
    status that is not OPERATIONAL it creates one with the message of this
    response, and after either call it calls every webhook with the incident
    title and that message; otherwise it sends nothing more. *)
Theorem cycle_reports_change (args : CycleArgs) (self : Expectation)
    (response : Response) (h : list Event) (cid : Z) :
  component_id self = Some cid ->
  let threshold := default (cy_allowed_fails args) (allowed_fails self) in
  let s := get_status self response in
  s <> component_status self ->
  s = OPERATIONAL \/ threshold < current_fails self + 1 ->
  let damped :=
    if_trigger_update (evaluate self response) (cy_allowed_fails args)
      (cy_logger args) h in
  let api := get_component_status (cy_client args) damped.2 cid in
  let hooks :=
    map (fun webhook =>
           WebhookPushIncident (url webhook) (cy_incident_title args)
             (get_message self response))
      (cy_webhooks args) in
  exists new,
    (cycle args self response h).2 = (h ++ new)%list /\
    external_calls new =
      (GetComponentStatus cid
       :: (if bool_decide (s = api) then [] else [PushStatus cid s])
       ++ match incident_id self with
          | Some iid =>
              if bool_decide (s = OPERATIONAL)
              then PushIncident s (cy_public_incidents args) cid
                     (cy_incident_title args) (Some iid) None :: hooks
              else []
          | None =>
              if bool_decide (s = OPERATIONAL)
              then []
              else PushIncident s (cy_public_incidents args) cid
                     (cy_incident_title args) None
                     (Some (get_message self response)) :: hooks
          end)%list.
Proof.
  intros Hcid threshold s Hchange Hpass damped api hooks.
  rewrite cycle_unfold. cbv zeta.
  destruct (damped_fields args self response h cid Hcid)
    as (Hdcid & Hdc & Hdp & Hdi & Hdm & Hdt & new1 & Hh1 & Hn1).
  fold threshold s damped in Hdcid, Hdc, Hdp, Hdi, Hdm, Hdt, Hh1.
  fold damped. clearbody s.
  assert (Htrig : trigger_update damped.1 = true).
  { rewrite Hdt. destruct Hpass as [Hop|Hgt].
    - rewrite bool_decide_false by (intros Hne; apply Hne, Hop). reflexivity.
    - apply Z.leb_gt in Hgt. rewrite Hgt. apply negb_true_iff, andb_false_r. }
  destruct (push_status_outcome damped.1 (cy_client args) (cy_logger args)
              damped.2 cid Hdcid) as (Hp & new2 & Hh2 & Hn2).
  rewrite Hdp, Hdc in Hp, Hn2. rewrite Htrig in Hn2.
  rewrite bool_decide_false in Hp, Hn2 by congruence.
  simpl in Hn2. fold api in Hn2.
  set (pushed := push_status _ _ _ _) in *.
  assert (Hpf : component_id pushed.1 = Some cid
                /\ trigger_update pushed.1 = true
                /\ incident_id pushed.1 = incident_id self
                /\ component_status pushed.1 = s
                /\ message pushed.1 = get_message self response).
  { rewrite Hp. simpl. auto. }
  destruct Hpf as (Hpc & Hpt & Hpi & Hps & Hpm).
  assert (Hhooks : webhook_calls pushed.1 (cy_incident_title args)
                     (cy_webhooks args) = hooks).
  { unfold webhook_calls. rewrite Hpm. reflexivity. }
  assert (Hinc : exists new3,
             (push_incident pushed.1 (cy_client args)
                (cy_public_incidents args) (cy_endpoint_name args)
                (cy_incident_title args) (cy_webhooks args) (cy_logger args)
                pushed.2).2 = (pushed.2 ++ new3)%list /\
             external_calls new3 =
               match incident_id self with
               | Some iid =>
                   if bool_decide (s = OPERATIONAL)
                   then PushIncident s (cy_public_incidents args) cid
                          (cy_incident_title args) (Some iid) None :: hooks
                   else []
               | None =>
                   if bool_decide (s = OPERATIONAL)
                   then []
                   else PushIncident s (cy_public_incidents args) cid
                          (cy_incident_title args) None
                          (Some (get_message self response)) :: hooks
               end).
  { destruct (incident_id self) as [iid|] eqn:Hinc;
      (destruct (decide (s = OPERATIONAL)) as [Hop|Hop];
       [rewrite (bool_decide_true (s = OPERATIONAL)) by assumption
       |rewrite (bool_decide_false (s = OPERATIONAL)) by assumption]).
    - destruct (push_incident_recovery pushed.1 (cy_client args)
                  (cy_public_incidents args) (cy_endpoint_name args)
                  (cy_incident_title args) (cy_webhooks args) (cy_logger args)
                  pushed.2 cid iid Hpc Hpt Hpi)
        as (new3 & Heq & Hcalls); [congruence|].
      rewrite Heq. exists new3. split; [reflexivity|].
      rewrite Hcalls, Hhooks, Hop. reflexivity.
    - rewrite push_incident_idle
        by (right; right; left; split; congruence).
      exists []. rewrite app_nil_r. done.
    - rewrite push_incident_idle
        by (right; right; right; split; congruence).
      exists []. rewrite app_nil_r. done.
    - destruct (push_incident_onset pushed.1 (cy_client args)
                  (cy_public_incidents args) (cy_endpoint_name args)
                  (cy_incident_title args) (cy_webhooks args) (cy_logger args)
                  pushed.2 cid Hpc Hpt Hpi)
        as (new3 & Heq & Hcalls); [congruence|].
      rewrite Heq. exists new3. split; [reflexivity|].
      rewrite Hcalls, Hhooks, Hps, Hpm. reflexivity. }
  destruct Hinc as (new3 & Hh3 & Hn3).
  exists (new1 ++ new2 ++ new3)%list.
  simpl. rewrite Hh3, Hh2, Hh1, <- !app_assoc. split; [reflexivity|].
  rewrite !external_calls_app, Hn1, Hn2, Hn3. simpl.
  case_bool_decide; reflexivity.
Qed.

(** X16.  Without damping and with a backend that accepts every incident
    call, the incident follows the status.  For a bound expectation whose
    effective threshold is 0 or less and whose failure counter is not
    negative, if an incident is open exactly when the status is not
    OPERATIONAL, the same holds after any sequence of cycles. *)
Theorem incident_follows_status (args : CycleArgs)
    (responses : list Response) :
  forall (self : Expectation) (h : list Event),
  component_id self <> None ->
  default (cy_allowed_fails args) (allowed_fails self) <= 0 ->
  0 <= current_fails self ->
  (forall h' status public component title previous body,
     ok (client_push_incident (cy_client args) h' status public component
           title previous body) = true) ->
  (incident_id self <> None <-> component_status self <> OPERATIONAL) ->
  let final := (run_cycles args self responses h).1.2 in
  incident_id final <> None <-> component_status final <> OPERATIONAL.
Proof.
  induction responses as [|response rest IH];
    intros self h Hbound Hthr Hcf Hok Hinv final; subst final.
  - simpl. exact Hinv.
  - simpl. unfold bind.
    pose proof (cycle_fields args self response h Hbound)
      as (_ & _ & Hfs & _ & _ & Hfc & _).
    pose proof (cycle_counter args self response h Hbound)
      as (Hdc & _ & Hfcf & _).
    assert (Hstep : incident_id (cycle args self response h).1.2 <> None
                    <-> get_status self response <> OPERATIONAL).
    { destruct (decide (get_status self response = component_status self))
        as [Hsame|Hchange].
      - destruct (quiet_cycle_outcome args self response h Hbound (or_introl Hsame))
          as (_ & -> & _). rewrite Hsame. exact Hinv.
      - destruct (component_id self) as [cid|] eqn:Hcid; [|done].
        rewrite cycle_unfold. cbv zeta. simpl.
        destruct (damped_fields args self response h cid Hcid)
          as (Hdcid & Hdcs & Hdp & _ & _ & Hdt & _).
        set (damped := if_trigger_update _ _ _ _) in *.
        destruct (push_status_outcome damped.1 (cy_client args)
                    (cy_logger args) damped.2 cid Hdcid) as (Hp & _).
        rewrite Hdp, Hdcs in Hp.
        rewrite bool_decide_false in Hp by congruence.
        set (pushed := push_status _ _ _ _) in *.
        assert (Hpt : trigger_update pushed.1 = true).
        { rewrite Hp. simpl. rewrite Hdt.
          assert (Hgt : (current_fails self + 1
                          <=? default (cy_allowed_fails args)
                                (allowed_fails self)) = false)
            by (apply Z.leb_gt; lia).
          rewrite Hgt. apply negb_true_iff, andb_false_r. }
        assert (Hpc : component_id pushed.1 = Some cid)
          by (rewrite Hp; exact Hdcid).
        assert (Hps : component_status pushed.1 = get_status self response)
          by (rewrite Hp; exact Hdcs).
        rewrite <- Hps.
        apply (push_incident_outcome pushed.1 (cy_client args)
                 (cy_public_incidents args) (cy_endpoint_name args)
                 (cy_incident_title args) (cy_webhooks args) (cy_logger args)
                 pushed.2 cid Hpc Hpt).
        intros. apply Hok. }
    destruct (cycle args self response h) as [[damped final] h1].
    simpl in *.
    pose proof (static_fields_eq _ _ Hfs) as (_ & _ & Hc & Ha).
    assert (Hbound' : component_id final <> None) by congruence.
    assert (Hcf' : 0 <= current_fails final).
    { rewrite Hfcf, Hdc. destruct (_ && _); lia. }
    specialize (IH final h1 Hbound').
    rewrite Ha in IH. specialize (IH Hthr Hcf' Hok).
    rewrite Hfc in IH. specialize (IH Hstep).
    destruct (run_cycles args final rest h1) as [[snaps last_state] h2].
    simpl in *. exact IH.
Qed.

(** *** Documents built along the path *)

Lemma walk_fields_nest_along (segments : list string) (inner : PyVal) :
  walk_fields segments (nest_along segments inner) = Return inner.
Proof.
  drop_env.
  induction segments as [|segment rest IH]; [reflexivity|].
  simpl. rewrite String.eqb_refl. simpl. exact IH.
Qed.

Lemma nest_along_app (segments : list string) (key : string) (v : PyVal) :
  nest_along (segments ++ [key])%list v
  = nest_along segments (VDict [(key, v)]).
Proof.
  induction segments as [|segment rest IH]; [reflexivity|].
  simpl. rewrite IH. reflexivity.
Qed.

Lemma lookup_nest_along (all_fields : list string) (v : PyVal)
    (response : Response) :
  all_fields <> [] ->
  json_loads (text response) = Some (nest_along all_fields v) ->
  JsonFieldValueCheck_lookup all_fields response = Return v.
Proof.
  intros Hne Hdoc. unfold JsonFieldValueCheck_lookup. rewrite Hdoc. simpl.
  destruct (exists_last Hne) as (segments & key & ->).
  rewrite length_app, Nat.add_sub. simpl.
  rewrite take_app_length, nest_along_app, walk_fields_nest_along. simpl.
  rewrite last_snoc. simpl. rewrite String.eqb_refl. reflexivity.
Qed.

(** X17.  A body whose JSON is the chain of one-key mappings spelled by the
    dotted field, with a value at the end, is classified by that value
    alone: OPERATIONAL when it equals the configured value and the incident
    status otherwise. *)
Theorem JsonFieldValueCheck_finds_nested_value (self : Expectation)
    (field : string) (value found : PyVal) (response : Response) :
  kind self = JsonFieldValueCheck field value (str_split "." field) ->
  json_loads (text response)
  = Some (nest_along (str_split "." field) found) ->
  get_status self response =
    if py_eq found value then OPERATIONAL else incident_status self.
Proof.
  intros Hk Hdoc. unfold get_status. rewrite Hk.
  unfold JsonFieldValueCheck_get_status.
  rewrite (lookup_nest_along _ found response (str_split_nonempty _ _) Hdoc).
  reflexivity.
Qed.

End Expectations.

(** ** The reader of ASCII literals as an instance of [int] *)

Lemma ascii_int_unfold (s : string) :
  ascii_int s =
    match lstrip (rstrip s) with
    | EmptyString => None
    | String c d =>
        if Ascii.eqb c "-" then Z.opp <$> digits_value 0 false d
        else if Ascii.eqb c "+" then digits_value 0 false d
        else digits_value 0 false (String c d)
    end.
Proof.
  unfold ascii_int. destruct (lstrip (rstrip s)) as [|c d]; [reflexivity|].
  destruct c as [[] [] [] [] [] [] [] []]; reflexivity.
Qed.

Lemma is_digit_not_space (c : ascii) :
  is_digit c = true -> is_space c = false.
Proof. unfold is_digit, is_space. lia. Qed.

Lemma is_letter_other (c : ascii) :
  is_letter c = true ->
  is_space c = false /\ is_digit c = false /\ Ascii.eqb c "_" = false
  /\ Ascii.eqb c "-" = false /\ Ascii.eqb c "+" = false.
Proof.
  intros Hl.
  assert (Hne : forall c', is_letter c' = false -> Ascii.eqb c c' = false).
  { intros c' Hc'. destruct (Ascii.eqb_spec c c') as [->|]; congruence. }
  split_and!; try (apply Hne; reflexivity);
    unfold is_letter, is_space, is_digit in *; lia.
Qed.

Lemma lstrip_contains (c : ascii) (s : string) :
  str_contains c s = false -> str_contains c (lstrip s) = false.
Proof.
  induction s as [|c' s IH]; simpl; [done|].
  intros H. apply orb_false_iff in H as [Hc Hs].
  destruct (is_space c'); [auto|]. simpl. rewrite Hc, Hs. reflexivity.
Qed.

Lemma rstrip_contains (c : ascii) (s : string) :
  str_contains c s = false -> str_contains c (rstrip s) = false.
Proof.
  induction s as [|c' s IH]; simpl; [done|].
  intros H. apply orb_false_iff in H as [Hc Hs]. specialize (IH Hs).
  destruct (rstrip s) as [|c'' r].
  - destruct (is_space c'); simpl; [done|]. rewrite Hc. reflexivity.
  - simpl in *. rewrite Hc, IH. reflexivity.
Qed.

Lemma digits_value_nonneg (s : string) :
  forall (acc : Z) (after_digit : bool) (n : Z),
    0 <= acc -> digits_value acc after_digit s = Some n -> 0 <= n.
Proof.
  induction s as [|c s IH]; intros acc after_digit n Hacc; simpl.
  - destruct after_digit; [|discriminate]. intros [= <-]. exact Hacc.
  - destruct (is_digit c) eqn:Hd.
    + apply IH. unfold is_digit in Hd. unfold digit_value. lia.
    + destruct (Ascii.eqb c "_" && after_digit); [|discriminate].
      apply IH. exact Hacc.
Qed.

Lemma rstrip_all_digits (s : string) :
  all_digits s = true -> rstrip s = s.
Proof.
  induction s as [|c s IH]; simpl; [done|].
  intros H. apply andb_true_iff in H as [Hc Hs]. rewrite (IH Hs).
  destruct s; [|reflexivity].
  rewrite (is_digit_not_space c Hc). reflexivity.
Qed.

Lemma digits_value_all_digits (s : string) :
  forall (acc : Z) (after_digit : bool),
    all_digits s = true -> s <> EmptyString \/ after_digit = true ->
    digits_value acc after_digit s = Some (decimal_value acc s).
Proof.
  induction s as [|c s IH]; intros acc after_digit Hall Hne; simpl.
  - destruct Hne as [Hne| ->]; done.
  - simpl in Hall. apply andb_true_iff in Hall as [Hc Hs].
    rewrite Hc. apply IH; auto.
Qed.

Lemma lstrip_has_letter (s : string) :
  has_letter s = true -> has_letter (lstrip s) = true.
Proof.
  induction s as [|c s IH]; simpl; [done|].
  intros H. destruct (is_space c) eqn:Hsp; [|exact H].
  apply orb_true_iff in H as [Hc|Hs]; [|auto].
  apply is_letter_other in Hc as (Hc & _). congruence.
Qed.

Lemma rstrip_has_letter (s : string) :
  has_letter s = true -> has_letter (rstrip s) = true.
Proof.
  induction s as [|c s IH]; simpl; [done|].
  intros H. apply orb_true_iff in H as [Hc|Hs].
  - pose proof (is_letter_other c Hc) as (Hsp & _).
    destruct (rstrip s); [rewrite Hsp|]; simpl; rewrite Hc; reflexivity.
  - specialize (IH Hs). destruct (rstrip s) as [|c' r]; [done|].
    simpl in *. rewrite IH. apply orb_true_r.
Qed.

Lemma digits_value_has_letter (s : string) :
  forall (acc : Z) (after_digit : bool),
    has_letter s = true -> digits_value acc after_digit s = None.
Proof.
  induction s as [|c s IH]; intros acc after_digit; simpl; [done|].
  intros H. destruct (is_letter c) eqn:Hc.
  - apply is_letter_other in Hc as (_ & -> & -> & _). reflexivity.
  - simpl in H. destruct (is_digit c); [auto|].
    destruct (Ascii.eqb c "_" && after_digit); auto.
Qed.

Lemma ascii_int_digits (s : string) :
  s <> EmptyString -> all_digits s = true ->
  (String.length s <= 640)%nat ->
  ascii_int s = Some (decimal_value 0 s).
Proof.
  intros Hne Hall _. rewrite ascii_int_unfold, (rstrip_all_digits s Hall).
  destruct s as [|c d]; [done|].
  pose proof Hall as Hall'. simpl in Hall'.
  apply andb_true_iff in Hall' as [Hc _].
  assert (Hl : lstrip (String c d) = String c d).
  { simpl. rewrite (is_digit_not_space c Hc). reflexivity. }
  rewrite Hl.
  assert (Ascii.eqb c "-" = false /\ Ascii.eqb c "+" = false) as [-> ->].
  { split; destruct (Ascii.eqb_spec c "-"), (Ascii.eqb_spec c "+");
      subst; try reflexivity; discriminate Hc. }
  apply digits_value_all_digits; auto.
Qed.

Lemma ascii_int_letter (s : string) :
  has_letter s = true -> ascii_int s = None.
Proof.
  intros H. apply rstrip_has_letter, lstrip_has_letter in H.
  rewrite ascii_int_unfold.
  destruct (lstrip (rstrip s)) as [|c d]; [reflexivity|].
  destruct (Ascii.eqb_spec c "-") as [->|_];
    [simpl in H; rewrite (digits_value_has_letter d 0 false H); reflexivity|].
  destruct (Ascii.eqb_spec c "+") as [->|_];
    [simpl in H; exact (digits_value_has_letter d 0 false H)|].
  exact (digits_value_has_letter (String c d) 0 false H).
Qed.

Lemma ascii_int_negative (s : string) (n : Z) :
  ascii_int s = Some n -> n < 0 -> str_contains "-" s = true.
Proof.
  intros Hn Hneg. destruct (str_contains "-" s) eqn:Hs; [reflexivity|].
  exfalso. apply rstrip_contains, lstrip_contains in Hs.
  rewrite ascii_int_unfold in Hn.
  destruct (lstrip (rstrip s)) as [|c d]; [discriminate|].
  simpl in Hs. apply orb_false_iff in Hs as [Hc Hd].
  rewrite Hc in Hn.
  assert (Hpos : 0 <= n); [|lia].
  destruct (Ascii.eqb c "+");
    eapply digits_value_nonneg; try exact Hn; lia.
Qed.

Definition demo_int : IntBuiltin :=
  {| int_str := ascii_int;
     int_str_digits := ascii_int_digits;
     int_str_letter := ascii_int_letter;
     int_str_negative := ascii_int_negative |}.

(** ** The theorems at concrete inputs *)

(** Three probes answered 500, 500 and 404, then one answered 200. *)
Lemma previous_status_at_check_witness :
  component_id demo_expectation <> None /\
  map previous_component_status
    (run_cycles demo_status_str demo_py_str demo_format_4f demo_json_loads
       demo_re_match demo_args demo_expectation
       [demo_response 500 ""; demo_response 404 ""; demo_response 200 ""]
       []).1.1
  = [OPERATIONAL; MAJOR_OUTAGE; MAJOR_OUTAGE].
Proof.
  assert (H : component_id demo_expectation <> None) by discriminate.
  split; [exact H|].
  exact (proj1 (previous_status_at_check demo_status_str demo_py_str
                  demo_format_4f demo_json_loads demo_re_match demo_args
                  demo_expectation
                  [demo_response 500 ""; demo_response 404 "";
                   demo_response 200 ""] [] H)).
Defined.

(** C1, the claim as stated fails: [push_status] on an expectation whose
    status has just changed overwrites [previous_component_status]. *)
Lemma push_status_assigns_previous_status :
  component_id demo_outage <> None /\
  previous_component_status demo_outage = OPERATIONAL /\
  previous_component_status
    (push_status demo_status_str demo_outage demo_client None []).1
  = MAJOR_OUTAGE /\
  previous_component_status
    (push_status demo_status_str demo_outage demo_client None []).1
  <> previous_component_status demo_outage.
Proof. repeat split; discriminate. Qed.



(** Damping with [allowed_fails] 2 over three failing probes. *)
Lemma if_trigger_update_spec_witness :
  component_id demo_expectation <> None /\
  (if_trigger_update demo_outage 0 None []).1
  = set_trigger_update false (set_current_fails 1 demo_outage) /\
  map trigger_update
    (run_cycles demo_status_str demo_py_str demo_format_4f demo_json_loads
       demo_re_match demo_args demo_expectation
       [demo_response 500 ""; demo_response 500 ""; demo_response 404 ""]
       []).1.1
  = [false; false; true].
Proof.
  assert (H : component_id demo_expectation <> None) by discriminate.
  assert (H' : component_id demo_outage <> None) by discriminate.
  split; [exact H|]. split.
  - apply (proj1 (if_trigger_update_spec demo_status_str demo_py_str
                    demo_format_4f demo_json_loads demo_re_match
                    demo_outage 0 None [] H')).
    + discriminate.
    + simpl. lia.
  - apply (proj2 (proj2 (proj2
             (if_trigger_update_spec demo_status_str demo_py_str
                demo_format_4f demo_json_loads demo_re_match
                demo_expectation 0 None [] H)))).
    all: try reflexivity; discriminate.
Defined.

(** The onset edge on a backend that accepts the incident, and the recovery
    edge on a backend that refuses the update: the incident stays open and
    the webhook is called all the same. *)
Lemma push_incident_spec_witness :
  component_id demo_outage = Some 7 /\
  trigger_update demo_outage = true /\
  (push_incident demo_status_str demo_outage demo_client true "api"
     "Incident" [demo_webhook] None []).1
  = set_incident_id (Some 41) demo_outage /\
  push_incident demo_status_str (set_incident_id (Some 41) demo_expectation)
    demo_failing_client true "api" "Incident" [demo_webhook] None []
  = (set_incident_id (Some 41) demo_expectation,
     [PushIncident OPERATIONAL true 7 "Incident" (Some 41) None;
      WebhookPushIncident "http://hook" "Incident" ""]).
Proof.
  split; [reflexivity|]. split; [reflexivity|]. split.
  - apply (proj1 (proj2 (push_incident_spec demo_status_str demo_outage
                           demo_client true "api" "Incident" [demo_webhook]
                           None [] 7 eq_refl eq_refl))).
    + reflexivity.
    + discriminate.
  - reflexivity.
Defined.

Lemma push_status_idempotent_witness :
  component_id demo_expectation <> None /\
  (push_status demo_status_str demo_expectation demo_client None []).1
  = set_trigger_update false demo_expectation.
Proof.
  assert (H : component_id demo_expectation <> None) by discriminate.
  split; [exact H|].
  apply (proj1 (push_status_idempotent demo_status_str demo_py_str
                  demo_format_4f demo_json_loads demo_re_match
                  demo_expectation [] H) demo_client None).
  reflexivity.
Defined.

(** The healthy body of the tests. *)
Lemma JsonFieldValueCheck_get_status_spec_witness :
  kind demo_json_expectation
  = JsonFieldValueCheck "data.status" (VStr "UP") (str_split "." "data.status")
  /\
  get_status demo_json_loads demo_re_match demo_json_expectation
    (demo_response 200 demo_body_up) = OPERATIONAL.
Proof.
  split; [reflexivity|].
  exact (proj2 (proj2
           (JsonFieldValueCheck_get_status_spec demo_json_loads demo_re_match
              demo_json_expectation "data.status" (VStr "UP")
              (demo_response 200 demo_body_up) eq_refl))
           (VDict [("data", VDict [("status", VStr "UP"); ("other", VInt 3)])])
           eq_refl).
Defined.

(** C6, the claim as stated fails: with the configured value [None], a body
    in which the path is missing is classified OPERATIONAL. *)
Lemma missing_path_equals_None :
  kind demo_null_expectation
  = JsonFieldValueCheck "data.status" VNone (str_split "." "data.status") /\
  demo_json_loads "{}" = Some (VDict []) /\
  dotted_path_value (VDict []) "data.status" = MissingPath /\
  incident_status demo_null_expectation = PARTIAL_OUTAGE /\
  get_status demo_json_loads demo_re_match demo_null_expectation
    (demo_response 200 "{}") = OPERATIONAL.
Proof. repeat split. Qed.

Lemma parse_range_spec_witness :
  str_split "-" "7-9-x" = ["7"; "9"; "x"] /\
  HttpStatus_parse_range demo_int (VStr "7-9-x") = Return (7, 9).
Proof.
  split; [reflexivity|].
  exact (proj1 (proj2 (proj2 (proj2 (parse_range_spec demo_int))))
           "7-9-x" "7" "9" ["x"] eq_refl).
Defined.

(** C7, the claim as stated fails: a string with more than two segments is
    not a single number nor a low-high pair, and it is accepted. *)
Lemma parse_range_ignores_later_segments :
  HttpStatus_parse_range demo_int (VStr "200-300-400") = Return (200, 300).
Proof. exact (parse_range_three_segments demo_int). Qed.

Lemma HttpStatus_get_status_spec_witness :
  kind demo_expectation = HttpStatus (200, 300) /\
  200 <= status_code (demo_response 299 "") < 300 /\
  get_status demo_json_loads demo_re_match demo_expectation
    (demo_response 299 "") = OPERATIONAL /\
  HttpStatus_init demo_incident_map demo_int demo_configuration demo_client []
  = Return (demo_expectation, [GetComponentNameAndStatus 7]) /\
  incident_status demo_expectation = MAJOR_OUTAGE /\
  get_status demo_json_loads demo_re_match demo_expectation
    (demo_response 300 "") = incident_status demo_expectation.
Proof.
  assert (H : 200 <= status_code (demo_response 299 "") < 300)
    by (simpl; lia).
  assert (Hinit : HttpStatus_init demo_incident_map demo_int
                    demo_configuration demo_client []
                  = Return (demo_expectation, [GetComponentNameAndStatus 7]))
    by (vm_compute; reflexivity).
  split; [reflexivity|]. split; [exact H|]. split.
  - exact (proj1 (HttpStatus_get_status_spec demo_incident_map
                    demo_json_loads demo_re_match demo_int demo_expectation
                    200 300 (demo_response 299 "") eq_refl) H).
  - split; [exact Hinit|].
    destruct (proj2 (proj2 (proj2
                (HttpStatus_get_status_spec demo_incident_map
                   demo_json_loads demo_re_match demo_int demo_expectation
                   200 300 (demo_response 300 "") eq_refl)))
                demo_configuration demo_client []
                [GetComponentNameAndStatus 7] Hinit) as [Hinc Hcodes].
    split; [exact Hinc|].
    exact (proj2 (proj2 (Hcodes eq_refl)) eq_refl).
Defined.

Lemma create_unknown_type_witness :
  cfg_type demo_unknown_configuration = Some "PING" /\
  create demo_incident_map demo_re_compile demo_int
    demo_unknown_configuration demo_client []
  = Raise (ConfigurationValidationError "Invalid type: PING").
Proof.
  split; [reflexivity|].
  assert (H1 : "PING" <> "HTTP_STATUS") by discriminate.
  assert (H2 : "PING" <> "LATENCY") by discriminate.
  assert (H3 : "PING" <> "REGEX") by discriminate.
  assert (H4 : "PING" <> "JSON_CHECK") by discriminate.
  exact (proj1 (create_unknown_type demo_incident_map demo_re_compile
                  demo_int demo_unknown_configuration demo_client [] "PING"
                  eq_refl H1 H2 H3 H4)).
Defined.

(** Construction from [demo_configuration] succeeds and leaves
    [demo_expectation]. *)
Lemma Expectation_init_bound_witness :
  cfg_component_id demo_configuration = Some 7 /\
  create demo_incident_map demo_re_compile demo_int demo_configuration
    demo_client []
  = Return (demo_expectation, [GetComponentNameAndStatus 7]) /\
  (Expectation_init demo_incident_map (HttpStatus (200, 300))
     demo_configuration demo_client []).2
  = [GetComponentNameAndStatus 7] /\
  component_status
    (Expectation_init demo_incident_map (HttpStatus (200, 300))
       demo_configuration demo_client []).1
  = (get_component_name_and_status demo_client [] 7).2.
Proof.
  split; [reflexivity|]. split; [vm_compute; reflexivity|].
  pose proof (Expectation_init_bound demo_incident_map demo_re_compile
                demo_int (HttpStatus (200, 300)) demo_configuration
                demo_client [] 7 eq_refl) as (Ht & _ & Hc & _).
  split; [exact Ht|exact Hc].
Defined.

(** ** The cases of the test suite *)

Example test_get_status_unhealthy_boundary :
  get_status demo_json_loads demo_re_match demo_expectation
    (demo_response 300 "") = MAJOR_OUTAGE /\
  get_message demo_py_str demo_format_4f demo_expectation
    (demo_response 400 "") = "Unexpected HTTP status (400)".
Proof. split; reflexivity. Qed.

Example test_json_unparsable_body :
  get_status demo_json_loads demo_re_match demo_json_expectation
    (demo_response 200 "not json") = PARTIAL_OUTAGE /\
  get_status demo_json_loads demo_re_match demo_json_expectation
    (demo_response 200 "[1, 2]") = PARTIAL_OUTAGE /\
  get_message demo_py_str demo_format_4f demo_json_expectation
    (demo_response 200 "{}")
  = "No matching of field data.status to value UP in the body".
Proof. repeat split; reflexivity. Qed.

(** A failure that lasts is never reported: the cycle in which the damping
    lets it through sees no change of status. *)
Example persistent_failure_trace :
  (run_cycles demo_status_str demo_py_str demo_format_4f demo_json_loads
     demo_re_match demo_args demo_expectation
     [demo_response 500 ""; demo_response 500 ""; demo_response 500 ""]
     []).2
  = [LogWarning "Failure #1 with threshold set to 2";
     LogWarning "Failure #2 with threshold set to 2";
     LogInfo "No changes to component status.";
     LogWarning "Failure #3 with threshold set to 2";
     LogInfo "No changes to component status."].
Proof. vm_compute. reflexivity. Qed.

(** ** The further properties at concrete inputs *)

Lemma unbound_expectation_is_inert_witness :
  component_id demo_json_expectation = None /\
  run_cycles demo_status_str demo_py_str demo_format_4f demo_json_loads
    demo_re_match demo_args demo_json_expectation
    [demo_response 200 "{}"; demo_response 200 demo_body_up] []
  = ([demo_json_expectation; demo_json_expectation],
     demo_json_expectation, []).
Proof.
  split; [reflexivity|].
  destruct (unbound_expectation_is_inert demo_incident_map demo_status_str
              demo_py_str demo_format_4f demo_json_loads demo_re_match
              demo_json_expectation demo_args [] eq_refl)
    as (_ & _ & _ & _ & _ & Hrun & _).
  exact (Hrun [demo_response 200 "{}"; demo_response 200 demo_body_up]).
Defined.

Lemma create_missing_keys_witness :
  cfg_type demo_incomplete_configuration = Some "JSON_CHECK" /\
  cfg_field demo_incomplete_configuration <> None /\
  cfg_value demo_incomplete_configuration = None /\
  create demo_incident_map demo_re_compile demo_int
    demo_incomplete_configuration demo_client []
  = Raise (KeyError "value").
Proof.
  assert (Hf : cfg_field demo_incomplete_configuration <> None)
    by discriminate.
  split; [reflexivity|]. split; [exact Hf|]. split; [reflexivity|].
  destruct (create_missing_keys demo_incident_map demo_re_compile demo_int
              demo_incomplete_configuration demo_client [])
    as (_ & _ & _ & _ & Hjson).
  exact (proj2 (Hjson eq_refl) Hf eq_refl).
Defined.

Lemma create_resolves_class_and_incident_witness :
  create demo_incident_map demo_re_compile demo_int demo_configuration
    demo_client []
  = Return (demo_expectation, [GetComponentNameAndStatus 7]) /\
  incident_status demo_expectation = MAJOR_OUTAGE.
Proof.
  assert (H : create demo_incident_map demo_re_compile demo_int
                demo_configuration demo_client []
              = Return (demo_expectation, [GetComponentNameAndStatus 7]))
    by (vm_compute; reflexivity).
  split; [exact H|].
  exact (proj2 (create_resolves_class_and_incident demo_incident_map
                  demo_re_compile demo_int demo_configuration demo_client []
                  [GetComponentNameAndStatus 7] demo_expectation H)).
Defined.

Lemma parse_range_string_bounds_witness :
  HttpStatus_parse_range demo_int (VStr "200-300") = Return (200, 300) /\
  0 <= 200 /\ 0 <= 300.
Proof.
  split; [reflexivity|].
  exact (parse_range_string_bounds demo_int "200-300" 200 300 eq_refl).
Defined.

(** The range "300-200" is accepted and matches nothing. *)
Lemma HttpStatus_empty_range_witness :
  HttpStatus_parse_range demo_int (VStr "300-200") = Return (300, 200) /\
  kind demo_inverted_expectation = HttpStatus (300, 200) /\
  200 <= 300 /\
  get_status demo_json_loads demo_re_match demo_inverted_expectation
    (demo_response 250 "") = MAJOR_OUTAGE.
Proof.
  assert (H : 200 <= 300) by lia.
  split; [reflexivity|]. split; [reflexivity|]. split; [exact H|].
  exact (HttpStatus_empty_range demo_json_loads demo_re_match
           demo_inverted_expectation 300 200 (demo_response 250 "")
           eq_refl H).
Defined.

Lemma HttpStatus_single_code_witness :
  cfg_status_range demo_single_configuration = Some (VInt 204) /\
  exists self,
    HttpStatus_init demo_incident_map demo_int demo_single_configuration
      demo_client []
    = Return (self, []) /\
    get_status demo_json_loads demo_re_match self (demo_response 204 "")
    = OPERATIONAL /\
    get_status demo_json_loads demo_re_match self (demo_response 205 "")
    = incident_status self.
Proof.
  split; [reflexivity|].
  eexists. split; [reflexivity|].
  split.
  - exact (HttpStatus_single_code demo_incident_map demo_json_loads
             demo_re_match demo_int demo_single_configuration demo_client
             [] [] _ 204
             (demo_response 204 "") eq_refl eq_refl).
  - exact (HttpStatus_single_code demo_incident_map demo_json_loads
             demo_re_match demo_int demo_single_configuration demo_client
             [] [] _ 204
             (demo_response 205 "") eq_refl eq_refl).
Defined.

Lemma push_status_calls_witness :
  component_id demo_outage = Some 7 /\
  push_status demo_status_str demo_outage demo_client None []
  = (set_previous_component_status MAJOR_OUTAGE demo_outage,
     [GetComponentStatus 7; PushStatus 7 MAJOR_OUTAGE]) /\
  (push_status demo_status_str demo_outage demo_failing_client None []).1
  = set_previous_component_status MAJOR_OUTAGE demo_outage.
Proof.
  split; [reflexivity|]. split; [reflexivity|].
  exact (proj1 (push_status_calls demo_status_str demo_outage
                  demo_failing_client None [] 7 eq_refl)).
Defined.

Lemma push_incident_tracks_status_witness :
  component_id demo_outage = Some 7 /\
  trigger_update demo_outage = true /\
  component_status demo_outage <> OPERATIONAL /\
  incident_id
    (push_incident demo_status_str demo_outage demo_client true "api"
       "Incident" [demo_webhook] None []).1
  <> None.
Proof.
  assert (Hne : component_status demo_outage <> OPERATIONAL) by discriminate.
  split; [reflexivity|]. split; [reflexivity|]. split; [exact Hne|].
  apply (proj1 (push_incident_tracks_status demo_status_str demo_outage
                  demo_client true "api" "Incident" [demo_webhook] None []
                  7 eq_refl eq_refl)).
  - intros. reflexivity.
  - exact Hne.
Defined.

Lemma damping_counter_invariant_witness :
  component_id demo_expectation <> None /\
  0 <= current_fails demo_expectation <= Z.max 0 2 /\
  0 <= current_fails
         (run_cycles demo_status_str demo_py_str demo_format_4f
            demo_json_loads demo_re_match demo_args demo_expectation
            [demo_response 500 ""; demo_response 200 ""; demo_response 404 ""]
            []).1.2
    <= Z.max 0 2.
Proof.
  assert (Hb : component_id demo_expectation <> None) by discriminate.
  assert (Hc : 0 <= current_fails demo_expectation <= Z.max 0 2)
    by (simpl; lia).
  split; [exact Hb|]. split; [exact Hc|].
  exact (proj2 (damping_counter_invariant demo_status_str demo_py_str
                  demo_format_4f demo_json_loads demo_re_match demo_args
                  demo_expectation
                  [demo_response 500 ""; demo_response 200 "";
                   demo_response 404 ""] [] Hb Hc)).
Defined.

(** Four failures in a row with [allowed_fails] 2: the third triggers and the
    count starts again. *)
Lemma damping_period_witness :
  component_id demo_expectation <> None /\
  map trigger_update
    (run_cycles demo_status_str demo_py_str demo_format_4f demo_json_loads
       demo_re_match demo_args demo_expectation
       [demo_response 500 ""; demo_response 500 ""; demo_response 500 "";
        demo_response 500 ""] []).1.1
  = [false; false; true; false].
Proof.
  assert (Hb : component_id demo_expectation <> None) by discriminate.
  assert (Hc : 0 <= current_fails demo_expectation <= 2) by (simpl; lia).
  assert (Hf : Forall (fun response =>
                         get_status demo_json_loads demo_re_match
                           demo_expectation response <> OPERATIONAL)
                 [demo_response 500 ""; demo_response 500 "";
                  demo_response 500 ""; demo_response 500 ""])
    by (repeat constructor; discriminate).
  split; [exact Hb|].
  exact (proj2 (damping_period demo_status_str demo_py_str demo_format_4f
                  demo_json_loads demo_re_match demo_args _ demo_expectation
                  [] Hb Hc Hf)).
Defined.

Lemma cycle_quiet_witness :
  component_id demo_expectation <> None /\
  get_status demo_json_loads demo_re_match demo_expectation
    (demo_response 200 "") = component_status demo_expectation /\
  trigger_update
    (cycle demo_status_str demo_py_str demo_format_4f demo_json_loads
       demo_re_match demo_args demo_expectation (demo_response 200 "")
       []).1.2
  = false.
Proof.
  assert (Hb : component_id demo_expectation <> None) by discriminate.
  split; [exact Hb|]. split; [reflexivity|].
  exact (proj2 (proj2 (cycle_quiet demo_status_str demo_py_str
                         demo_format_4f demo_json_loads demo_re_match
                         demo_args demo_expectation (demo_response 200 "")
                         [] Hb (or_introl eq_refl)))).
Defined.

(** An outage that lasts, with [allowed_fails] 2: no incident is opened. *)
Lemma unchanged_classification_is_never_reported_witness :
  component_id demo_expectation <> None /\
  incident_id
    (run_cycles demo_status_str demo_py_str demo_format_4f demo_json_loads
       demo_re_match demo_args demo_expectation
       [demo_response 500 ""; demo_response 500 ""; demo_response 500 "";
        demo_response 500 ""; demo_response 500 ""] []).1.2
  = None.
Proof.
  assert (Hb : component_id demo_expectation <> None) by discriminate.
  assert (Hf : Forall (fun response =>
                         get_status demo_json_loads demo_re_match
                           demo_expectation response = MAJOR_OUTAGE)
                 [demo_response 500 ""; demo_response 500 "";
                  demo_response 500 ""; demo_response 500 "";
                  demo_response 500 ""])
    by (repeat constructor).
  assert (Hq : MAJOR_OUTAGE = component_status demo_expectation
               \/ (MAJOR_OUTAGE <> OPERATIONAL
                   /\ current_fails demo_expectation + 1
                      <= default (cy_allowed_fails demo_args)
                           (allowed_fails demo_expectation))).
  { right. split; [discriminate|simpl; lia]. }
  split; [exact Hb|].
  exact (proj2 (unchanged_classification_is_never_reported demo_status_str
                  demo_py_str demo_format_4f demo_json_loads demo_re_match
                  demo_args _ MAJOR_OUTAGE demo_expectation [] Hb Hf Hq)).
Defined.

(** Recovery with an incident open: the backend already reports the
    component as operational, the incident is updated and both webhooks
    are called. *)
Lemma cycle_reports_change_witness :
  component_id (set_incident_id (Some 41) demo_outage) = Some 7 /\
  exists new,
    (cycle demo_status_str demo_py_str demo_format_4f demo_json_loads
       demo_re_match demo_args (set_incident_id (Some 41) demo_outage)
       (demo_response 200 "") []).2 = new /\
    external_calls new =
      [GetComponentStatus 7;
       PushIncident OPERATIONAL true 7 "Incident" (Some 41) None;
       WebhookPushIncident "http://down" "Incident"
         "Unexpected HTTP status (200)";
       WebhookPushIncident "http://hook" "Incident"
         "Unexpected HTTP status (200)"].
Proof.
  split; [reflexivity|].
  assert (Hchange : get_status demo_json_loads demo_re_match
                      (set_incident_id (Some 41) demo_outage)
                      (demo_response 200 "")
                    <> component_status (set_incident_id (Some 41) demo_outage))
    by discriminate.
  destruct (cycle_reports_change demo_status_str demo_py_str demo_format_4f
              demo_json_loads demo_re_match demo_args
              (set_incident_id (Some 41) demo_outage) (demo_response 200 "")
              [] 7 eq_refl Hchange (or_introl eq_refl))
    as (new & Heq & Hcalls).
  exists new. split; [exact Heq|exact Hcalls].
Defined.

Lemma JsonFieldValueCheck_non_mapping_witness :
  kind demo_null_expectation
  = JsonFieldValueCheck "data.status" VNone ["data"; "status"] /\
  demo_json_loads (text (demo_response 200 "[1, 2]"))
  = Some (VList [VInt 1; VInt 2]) /\
  get_status demo_json_loads demo_re_match demo_null_expectation
    (demo_response 200 "[1, 2]") = incident_status demo_null_expectation.
Proof.
  split; [reflexivity|]. split; [reflexivity|].
  exact (JsonFieldValueCheck_non_mapping demo_json_loads demo_re_match
           demo_null_expectation "data.status" VNone ["data"; "status"]
           (demo_response 200 "[1, 2]") (VList [VInt 1; VInt 2])
           eq_refl eq_refl).
Defined.

Lemma run_cycles_current_status_witness :
  component_id demo_expectation <> None /\
  get_current_status
    (run_cycles demo_status_str demo_py_str demo_format_4f demo_json_loads
       demo_re_match demo_args demo_expectation
       [demo_response 200 ""; demo_response 503 ""] []).1.2
  = Some MAJOR_OUTAGE.
Proof.
  assert (Hb : component_id demo_expectation <> None) by discriminate.
  split; [exact Hb|].
  exact (proj1 (run_cycles_current_status demo_status_str demo_py_str
                  demo_format_4f demo_json_loads demo_re_match demo_args
                  demo_expectation
                  [demo_response 200 ""; demo_response 503 ""] [] Hb)).
Defined.

(** Onset then recovery without damping: no incident is left open. *)
Lemma incident_follows_status_witness :
  component_id demo_undamped_expectation <> None /\
  default (cy_allowed_fails demo_args)
    (allowed_fails demo_undamped_expectation) <= 0 /\
  0 <= current_fails demo_undamped_expectation /\
  (incident_id
     (run_cycles demo_status_str demo_py_str demo_format_4f demo_json_loads
        demo_re_match demo_args demo_undamped_expectation
        [demo_response 500 ""] []).1.2 <> None
   <-> component_status
         (run_cycles demo_status_str demo_py_str demo_format_4f
            demo_json_loads demo_re_match demo_args
            demo_undamped_expectation [demo_response 500 ""] []).1.2
       <> OPERATIONAL).
Proof.
  assert (Hb : component_id demo_undamped_expectation <> None)
    by discriminate.
  assert (Ht : default (cy_allowed_fails demo_args)
                 (allowed_fails demo_undamped_expectation) <= 0)
    by (simpl; lia).
  assert (Hc : 0 <= current_fails demo_undamped_expectation)
    by (simpl; lia).
  split; [exact Hb|]. split; [exact Ht|]. split; [exact Hc|].
  apply (incident_follows_status demo_status_str demo_py_str demo_format_4f
           demo_json_loads demo_re_match demo_args [demo_response 500 ""]
           demo_undamped_expectation [] Hb Ht Hc).
  - intros. reflexivity.
  - split; intros H; exfalso; apply H; reflexivity.
Defined.

(** The healthy body of the tests without its second key. *)
Lemma JsonFieldValueCheck_finds_nested_value_witness :
  kind demo_json_expectation
  = JsonFieldValueCheck "data.status" (VStr "UP") (str_split "." "data.status")
  /\
  demo_json_loads_nested (text (demo_response 200 demo_body_status_up))
  = Some (nest_along (str_split "." "data.status") (VStr "UP")) /\
  get_status demo_json_loads_nested demo_re_match demo_json_expectation
    (demo_response 200 demo_body_status_up)
  = OPERATIONAL.
Proof.
  split; [reflexivity|]. split; [reflexivity|].
  exact (JsonFieldValueCheck_finds_nested_value demo_json_loads_nested
           demo_re_match demo_json_expectation "data.status" (VStr "UP")
           (VStr "UP") (demo_response 200 demo_body_status_up)
           eq_refl eq_refl).
Defined.
